(** * Audio-Processor: persistence, deduplication and segmentation

    A shallow embedding of [src/app.py]: the two SQLite tables, the blob
    directory tree under [STORAGE_DIR], the segmentation loop of
    [process_audio] and the upload page that ties them together.

    Conventions of the embedding.
    - A table is the list of its rows in insertion order; the constraints of
      the [CREATE TABLE] statements ([PRIMARY KEY], [UNIQUE]) are checked by
      the inserting functions, which raise [IntegrityError] as sqlite3 does.
      Foreign keys are declared but not enforced (no [PRAGMA foreign_keys]).
    - Text is the sequence of the bytes of its UTF-8 encoding.
    - The disk is the tree below the working directory, a finite map from
      path text to a node (regular file or directory);
      [Path.__truediv__] joins with a slash. A write into a directory that
      does not exist fails as [open] and [os.mkdir] fail. A path is looked
      up as the text the program builds, the directory of a path being the
      text before its last slash: this is what pathlib and the system make
      of the paths built from uuids and from names without a separator.
      A name with a separator in it finds no directory here; where the
      system would find one for it (through [..], [.] or a leading
      separator) the model does not follow. The limits of the file system
      (length of a name, free space, permissions) are not described.
    - The temporary copy of the upload (lines 1135 to 1154) is made in the
      temporary directory of the system and unlinked again before anything
      is stored; that directory is no part of the tree.
    - A Python call either returns or raises; every stateful function maps a
      state to an [outcome] and the state it leaves behind, so that what was
      committed before an exception stays committed.
    - [x / 1000] on millisecond integers is the exact rational [x # 1000].
    - The transcription service, pydub, base64, hashlib, uuid4 and the clock
      are collaborators: their results enter as arguments or through the
      [Collaborators] interface, and so does [str.lower], whose table of
      cased letters is that of the interpreter. A collaborator that raises
      is outside the interface. *)

From Stdlib Require Import ZArith QArith Qround String Ascii DecimalString DecimalN.
From stdpp Require Import gmap strings list sorting.

Open Scope Z_scope.

(** ** Text *)

(** No path separator in a name. *)
Fixpoint sep_free (s : string) : bool :=
  match s with
  | EmptyString => true
  | String c s' => negb (Ascii.eqb c "/") && sep_free s'
  end.

(** No NUL character. *)
Fixpoint nul_free (s : string) : bool :=
  match s with
  | EmptyString => true
  | String c s' => negb (Ascii.eqb c Ascii.zero) && nul_free s'
  end.

(** Text that can be part of a file name: the two characters a file name
    cannot hold are the separator and NUL. *)
Definition plain (s : string) : bool := sep_free s && nul_free s.

(** [str.isascii]. *)
Fixpoint is_ascii (s : string) : bool :=
  match s with
  | EmptyString => true
  | String c s' => (N_of_ascii c <? 128)%N && is_ascii s'
  end.

(** [str.lower] on the ASCII range: the letters A to Z. *)
Definition lower_ascii (c : ascii) : ascii :=
  let n := N_of_ascii c in
  if ((65 <=? n) && (n <=? 90))%N then ascii_of_N (n + 32) else c.

Fixpoint lower_letters (s : string) : string :=
  match s with
  | EmptyString => EmptyString
  | String c s' => String (lower_ascii c) (lower_letters s')
  end.

(** ** Collaborators *)

Definition bytes := list Byte.byte.

Class Collaborators := {
  (** [pydub.AudioSegment]: decoded audio, its length in milliseconds,
      slicing and export to a container format. *)
  Audio : Type;
  audio_len : Audio → Z;
  audio_slice : Audio → Z → Z → Audio;
  audio_export : Audio → string → bytes;
  (** [base64.b64encode(b).decode('utf-8')] and [base64.b64decode]. *)
  b64encode : bytes → string;
  b64decode : string → bytes;
  b64decode_b64encode : ∀ b, b64decode (b64encode b) = b;
  (** [hashlib.sha256(b).hexdigest()]. *)
  sha256_hexdigest : bytes → string;
  (** [str.lower]: on ASCII text it lowers the letters A to Z; no
      character lowers to a separator or to NUL, and these two stay. *)
  lower : string → string;
  lower_is_ascii : ∀ s, is_ascii s = true → lower s = lower_letters s;
  lower_sep_free : ∀ s, sep_free (lower s) = sep_free s;
  lower_nul_free : ∀ s, nul_free (lower s) = nul_free s;
}.

(** ** Outcomes of Python calls *)

Inductive exn :=
  | IntegrityError
  | FileExistsError
  | FileNotFoundError
  | IsADirectoryError
  | NotADirectoryError
  | ValueError
  | KeyError.

Inductive outcome (A : Type) :=
  | Returned (a : A)
  | Raised (e : exn).
Arguments Returned {A} a.
Arguments Raised {A} e.

(** State and exception monad: the state survives an exception. *)
Definition M (S A : Type) : Type := S → outcome A * S.

Definition ret {S A} (a : A) : M S A := λ s, (Returned a, s).

Definition bind {S A B} (k : A → M S B) (m : M S A) : M S B :=
  λ s, match m s with
       | (Returned a, s') => k a s'
       | (Raised e, s') => (Raised e, s')
       end.

Definition raise {S A} (e : exn) : M S A := λ s, (Raised e, s).

Definition reads {S A} (f : S → A) : M S A := λ s, (Returned (f s), s).

#[export] Instance M_ret {S} : MRet (M S) := @ret S.
#[export] Instance M_bind {S} : MBind (M S) := @bind S.

(** ** The relational store *)

Record conversation_row := {
  c_id : string;
  c_fingerprint : string;
  c_filename : string;
  c_format : string;
  c_duration : Q;
  c_speakers : Z;
  c_turns : Z;
  c_processed_at : string;
  c_storage_path : string;
  c_last_viewed : string;
}.

Record turn_row := {
  t_id : string;
  t_conversation_id : string;
  t_number : Z;
  t_speaker : string;
  t_text : string;
  t_start_ms : Z;
  t_end_ms : Z;
  t_audio_path : string;
}.

Record database := {
  conversations : list conversation_row;
  turns : list turn_row;
}.

(** [init_database] on a fresh file: both tables empty. *)
Definition init_database : database :=
  {| conversations := []; turns := [] |}.

(** ** The blob directory tree *)

Inductive node :=
  | File (content : bytes)
  | Dir.

Abbreviation disk := (gmap string node).

Definition STORAGE_DIR : string := "data/audio_storage".
Definition DB_DIR : string := "data".

(** [a / b] of pathlib for a relative [b] that pathlib keeps as it is:
    not empty, and without an empty or [.] component. *)
Definition path_join (a b : string) : string := a +:+ "/" +:+ b.

(** The module-level [mkdir(parents=True, exist_ok=True)] calls. *)
Definition init_disk : disk := <[STORAGE_DIR := Dir]> (<[DB_DIR := Dir]> ∅).

Definition path_exists (p : string) (fs : disk) : bool :=
  match fs !! p with Some _ => true | None => false end.

(** [os.path.dirname]: the text before the last separator, if there is
    one. *)
Fixpoint dirname (p : string) : option string :=
  match p with
  | EmptyString => None
  | String c p' =>
      match dirname p' with
      | Some d => Some (String c d)
      | None => if Ascii.eqb c "/" then Some EmptyString else None
      end
  end.

(** What the system finds wrong with the directory that [p] is looked up
    in; the working directory and the root are there. *)
Definition parent_error (p : string) (fs : disk) : option exn :=
  match dirname p with
  | None | Some EmptyString => None
  | Some d =>
      match fs !! d with
      | Some Dir => None
      | Some (File _) => Some NotADirectoryError
      | None => Some FileNotFoundError
      end
  end.

(** [p.mkdir(exist_ok=True)]. *)
Definition mkdir (p : string) : M disk unit := λ fs,
  if negb (nul_free p) then (Raised ValueError, fs)
  else match parent_error p fs with
       | Some e => (Raised e, fs)
       | None =>
           match fs !! p with
           | Some (File _) => (Raised FileExistsError, fs)
           | Some Dir => (Returned (), fs)
           | None => (Returned (), <[p := Dir]> fs)
           end
       end.

(** The proper prefixes of [p] that end before a separator, the shortest
    first; [acc] is what was read of [p] so far. *)
Fixpoint ancestors_from (acc p : string) : list string :=
  match p with
  | EmptyString => []
  | String c p' =>
      (if Ascii.eqb c "/"
       then match acc with EmptyString => [] | _ => [acc] end
       else [])
      ++ ancestors_from (acc +:+ String c EmptyString) p'
  end.

Definition ancestors (p : string) : list string := ancestors_from "" p.

(** One directory on the way to the one [parents=True] is asked for. *)
Definition make_dir (p : string) : M disk unit := λ fs,
  match fs !! p with
  | Some (File _) => (Raised NotADirectoryError, fs)
  | Some Dir => (Returned (), fs)
  | None => (Returned (), <[p := Dir]> fs)
  end.

Fixpoint make_dirs (ps : list string) : M disk unit :=
  match ps with
  | [] => mret ()
  | p :: rest => make_dir p;; make_dirs rest
  end.

(** [p.mkdir(parents=True, exist_ok=True)]. *)
Definition mkdir_parents (p : string) : M disk unit := λ fs,
  if negb (nul_free p) then (Raised ValueError, fs)
  else (make_dirs (ancestors p);; mkdir p) fs.

(** [with open(p, 'wb') as f: f.write(b)]. *)
Definition write_file (p : string) (b : bytes) : M disk unit := λ fs,
  if negb (nul_free p) then (Raised ValueError, fs)
  else match parent_error p fs with
       | Some e => (Raised e, fs)
       | None =>
           match fs !! p with
           | Some Dir => (Raised IsADirectoryError, fs)
           | _ => (Returned (), <[p := File b]> fs)
           end
       end.

(** [k] is [d] or lies below it, by the text of the two paths. *)
Definition inside (d k : string) : bool :=
  bool_decide (k = d) || String.prefix (d +:+ "/") k.

(** [shutil.rmtree(d)] for an existing [d]. *)
Definition rmtree (d : string) : M disk unit := λ fs,
  match fs !! d with
  | Some (File _) => (Raised NotADirectoryError, fs)
  | _ => (Returned (), filter (λ kv, inside d kv.1 = false) fs)
  end.

Record world := {
  db : database;
  files : disk;
}.

Definition init_world : world := {| db := init_database; files := init_disk |}.

Definition on_db {A} (m : M database A) : M world A := λ w,
  let '(o, d) := m (db w) in (o, {| db := d; files := files w |}).

Definition on_disk {A} (m : M disk A) : M world A := λ w,
  let '(o, fs) := m (files w) in (o, {| db := db w; files := fs |}).

(** ** Database functions *)

Definition get_audio_fingerprint `{Collaborators} (audio_bytes : bytes) : string :=
  sha256_hexdigest audio_bytes.

(** [SELECT id, filename, processed_at, turns, duration ... WHERE
    fingerprint = ?] followed by [fetchone()]. *)
Definition find_existing_conversation (fingerprint : string) (d : database)
  : option (string * string * string * Z * Q) :=
  (λ r, (c_id r, c_filename r, c_processed_at r, c_turns r, c_duration r))
    <$> head (filter (λ r, c_fingerprint r = fingerprint) (conversations d)).

(** The two [datetime.now()] of the [INSERT] are [processed_at] and
    [last_viewed]. *)
Definition save_conversation (processed_at last_viewed : string)
    (conv_id fingerprint filename audio_format : string) (duration : Q)
    (speakers turns_count : Z) (storage_path : string) : M database unit := λ d,
  if decide (conv_id ∈ map c_id (conversations d)
             ∨ fingerprint ∈ map c_fingerprint (conversations d))
  then (Raised IntegrityError, d)
  else (Returned (),
        {| conversations := conversations d ++
             [ {| c_id := conv_id; c_fingerprint := fingerprint;
                  c_filename := filename; c_format := audio_format;
                  c_duration := duration; c_speakers := speakers;
                  c_turns := turns_count; c_processed_at := processed_at;
                  c_storage_path := storage_path;
                  c_last_viewed := last_viewed |} ];
           turns := turns d |}).

Definition set_last_viewed (now : string) (r : conversation_row) : conversation_row :=
  {| c_id := c_id r; c_fingerprint := c_fingerprint r;
     c_filename := c_filename r; c_format := c_format r;
     c_duration := c_duration r; c_speakers := c_speakers r;
     c_turns := c_turns r; c_processed_at := c_processed_at r;
     c_storage_path := c_storage_path r; c_last_viewed := now |}.

Definition update_last_viewed (now : string) (conv_id : string) : M database unit := λ d,
  (Returned (),
   {| conversations :=
        map (λ r, if decide (c_id r = conv_id) then set_last_viewed now r else r)
            (conversations d);
      turns := turns d |}).

Definition save_turn (turn_id conv_id : string) (number : Z)
    (speaker text : string) (start_ms end_ms : Z) (audio_path : string)
  : M database unit := λ d,
  if decide (turn_id ∈ map t_id (turns d))
  then (Raised IntegrityError, d)
  else (Returned (),
        {| conversations := conversations d;
           turns := turns d ++
             [ {| t_id := turn_id; t_conversation_id := conv_id;
                  t_number := number; t_speaker := speaker; t_text := text;
                  t_start_ms := start_ms; t_end_ms := end_ms;
                  t_audio_path := audio_path |} ] |}).

(** A turn as [load_conversation_turns] hands it to the page. *)
Record loaded_turn := {
  l_number : Z;
  l_speaker : string;
  l_text : string;
  l_start : Q;
  l_end : Q;
  l_audio_b64 : string;
}.

Definition number_le (r1 r2 : turn_row) : Prop := t_number r1 ≤ t_number r2.

#[export] Instance number_le_dec r1 r2 : Decision (number_le r1 r2).
Proof. unfold number_le. apply _. Defined.

(** [SELECT ... FROM turns WHERE conversation_id = ? ORDER BY number]. *)
Definition select_turns (conv_id : string) (d : database) : list turn_row :=
  merge_sort number_le
    (filter (λ r, t_conversation_id r = conv_id) (turns d)).

Fixpoint load_rows `{Collaborators} (fs : disk) (rows : list turn_row)
  : outcome (list loaded_turn) :=
  match rows with
  | [] => Returned []
  | row :: rest =>
      let audio_path := path_join STORAGE_DIR (t_audio_path row) in
      match fs !! audio_path with
      | None => load_rows fs rest
      | Some Dir => Raised IsADirectoryError
      | Some (File audio_bytes) =>
          match load_rows fs rest with
          | Returned loaded =>
              Returned ({| l_number := t_number row;
                           l_speaker := t_speaker row;
                           l_text := t_text row;
                           l_start := t_start_ms row # 1000;
                           l_end := t_end_ms row # 1000;
                           l_audio_b64 := b64encode audio_bytes |} :: loaded)
          | Raised e => Raised e
          end
      end
  end.

Definition load_conversation_turns `{Collaborators} (conv_id : string)
  : M world (list loaded_turn) := λ w,
  (load_rows (files w) (select_turns conv_id (db w)), w).

(** [SELECT id, filename, format, duration, turns, speakers, processed_at
    ... WHERE id = ?] followed by [fetchone()]. *)
Definition get_conversation_by_id (conv_id : string) (d : database)
  : option (string * string * string * Q * Z * Z * string) :=
  (λ r, (c_id r, c_filename r, c_format r, c_duration r, c_turns r,
         c_speakers r, c_processed_at r))
    <$> head (filter (λ r, c_id r = conv_id) (conversations d)).

Definition delete_rows (conv_id : string) : M database unit := λ d,
  (Returned (),
   {| conversations := filter (λ r, c_id r ≠ conv_id) (conversations d);
      turns := filter (λ r, t_conversation_id r ≠ conv_id) (turns d) |}).

Definition delete_conversation (conv_id : string) : M world unit := λ w,
  match head (filter (λ r, c_id r = conv_id) (conversations (db w))) with
  | Some result =>
      let conv_dir := path_join STORAGE_DIR (c_storage_path result) in
      ((if path_exists conv_dir (files w)
        then on_disk (rmtree conv_dir) else mret ()) ;;
       on_db (delete_rows conv_id)) w
  | None => (Returned (), w)
  end.

(** ** Storage functions *)

Definition decimal (n : N) : string := NilEmpty.string_of_uint (N.to_uint n).

Fixpoint zeros (n : nat) : string :=
  match n with
  | O => EmptyString
  | S n' => String "0" (zeros n')
  end.

Definition zfill (width : nat) (s : string) : string :=
  zeros (width - String.length s) +:+ s.

(** The format spec [:03d]: the sign counts towards the width. *)
Definition format_03d (z : Z) : string :=
  if z <? 0 then "-" +:+ zfill 2 (decimal (Z.to_N (- z)))
  else zfill 3 (decimal (Z.to_N z)).

(** A turn dictionary as [process_audio] builds it; [audio_path] is the key
    [save_audio_files] adds. *)
Record turn := {
  number : Z;
  speaker : string;
  text : string;
  start : Q;
  end_ : Q;
  start_ms : Z;
  end_ms : Z;
  audio_b64 : string;
  audio_path : option string;
}.

Definition set_audio_path (p : string) (t : turn) : turn :=
  {| number := number t; speaker := speaker t; text := text t;
     start := start t; end_ := end_ t; start_ms := start_ms t;
     end_ms := end_ms t; audio_b64 := audio_b64 t; audio_path := Some p |}.

Definition segment_filename `{Collaborators} (t : turn) (audio_format : string)
  : string :=
  lower (speaker t) +:+ "_" +:+ format_03d (number t) +:+ "." +:+ audio_format.

(** The loop of [save_audio_files]; the dictionaries it updates in place are
    the ones the caller goes on to use, so the updated list is returned. *)
Fixpoint save_segments `{Collaborators} (conv_id segments_dir audio_format : string)
    (turns_data : list turn) : M disk (list turn) :=
  match turns_data with
  | [] => mret []
  | t :: rest =>
      let segment_path := path_join segments_dir (segment_filename t audio_format) in
      write_file segment_path (b64decode (audio_b64 t));;
      rest' ← save_segments conv_id segments_dir audio_format rest;
      mret (set_audio_path
              (conv_id +:+ "/segments/" +:+ segment_filename t audio_format) t
            :: rest')
  end.

Definition save_audio_files `{Collaborators} (conv_id : string)
    (audio_bytes : bytes) (audio_format : string) (turns_data : list turn)
  : M disk (list turn) :=
  let conv_dir := path_join STORAGE_DIR conv_id in
  let segments_dir := path_join conv_dir "segments" in
  let original_path := path_join conv_dir ("original." +:+ audio_format) in
  mkdir_parents conv_dir;;
  mkdir segments_dir;;
  write_file original_path audio_bytes;;
  save_segments conv_id segments_dir audio_format turns_data.

(** ** Processing function *)

Record utterance := {
  u_speaker : string;
  u_text : string;
  u_start : Z;
  u_end : Z;
}.

(** What [Transcriber().transcribe] answers. *)
Inductive transcript :=
  | TranscriptError (error : string)
  | TranscriptCompleted (utterances : list utterance).

(** The body of the [for idx, utterance in enumerate(..., 1)] loop, [idx]
    being the index of the head of [us]. *)
Fixpoint extract_turns `{Collaborators} (audio : Audio) (audio_format : string)
    (idx : Z) (us : list utterance) : list turn :=
  match us with
  | [] => []
  | utterance :: rest =>
      let start_ms := Z.max 0 (u_start utterance) in
      let end_ms := Z.min (audio_len audio) (u_end utterance) in
      if end_ms <=? start_ms
      then extract_turns audio audio_format (idx + 1) rest
      else
        let segment := audio_slice audio start_ms end_ms in
        let audio_bytes := audio_export segment audio_format in
        {| number := idx;
           speaker := u_speaker utterance;
           text := u_text utterance;
           start := u_start utterance # 1000;
           end_ := u_end utterance # 1000;
           start_ms := start_ms;
           end_ms := end_ms;
           audio_b64 := b64encode audio_bytes;
           audio_path := None |}
        :: extract_turns audio audio_format (idx + 1) rest
  end.

(** [None] is the [return None] after a transcription error. *)
Definition process_audio `{Collaborators} (answer : transcript) (audio : Audio)
    (audio_format : string) : option (list turn) :=
  match answer with
  | TranscriptError _ => None
  | TranscriptCompleted utterances =>
      Some (extract_turns audio audio_format 1 utterances)
  end.

(** ** The pages *)

(** What one run of the script draws from outside: the successive answers of
    [uuid.uuid4()] and of [datetime.now().isoformat()]. *)
Record ambient := {
  uuid4 : nat → string;
  now : nat → string;
}.

(** An uploaded file together with what the collaborators make of it:
    [file_ext] is the lower-cased suffix of [name], [answer] what the
    transcriber returns for the file and [decoded] what
    [AudioSegment.from_file] reads from it (after the conversion of an ogg
    upload to wav). *)
Record upload `{Collaborators} := {
  name : string;
  file_ext : string;
  audio_bytes : bytes;
  speakers_expected : Z;
  answer : transcript;
  decoded : Audio;
}.

Fixpoint save_turns (conv_id : string) (uuid : nat → string) (k : nat)
    (ts : list turn) : M database unit :=
  match ts with
  | [] => mret ()
  | t :: rest =>
      match audio_path t with
      | Some p =>
          save_turn (uuid k) conv_id (number t) (speaker t) (text t)
                    (start_ms t) (end_ms t) p
      | None => raise KeyError
      end;;
      save_turns conv_id uuid (S k) rest
  end.

(** The body of [if turns:] on the upload page: the files, the conversation
    row, then one row per turn. It yields the id of the new conversation. *)
Definition store_results `{Collaborators} (up : upload) (env : ambient)
    (turns : list turn) : M world (option string) :=
  let conv_id := uuid4 env 0%nat in
  let duration := match last turns with Some t => end_ t | None => 0%Q end in
  turns' ← on_disk (save_audio_files conv_id (audio_bytes up) (file_ext up) turns);
  on_db (save_conversation (now env 0%nat) (now env 1%nat) conv_id
           (get_audio_fingerprint (audio_bytes up)) (name up) (file_ext up)
           duration (speakers_expected up) (Z.of_nat (length turns)) conv_id);;
  on_db (save_turns conv_id (uuid4 env) 1 turns');;
  mret (Some conv_id).

(** The body of [if st.button("Process Audio")] from the call of
    [process_audio] on; an empty or absent list of turns is falsy and stores
    nothing. The temporary copy made before the call is gone when the
    results are stored, and an ogg upload was converted to wav in the
    temporary directory: [answer] and [decoded] are what the collaborators
    make of the file they are given. *)
Definition process_and_save `{Collaborators} (up : upload) (env : ambient)
  : M world (option string) :=
  match process_audio (answer up) (decoded up) (file_ext up) with
  | Some ((_ :: _) as turns) => store_results up env turns
  | _ => mret None
  end.

Inductive page_name := UploadPage | HistoryPage.

(** The part of [st.session_state] that steers persistence. *)
Record session := {
  page : page_name;
  show_override_warning : bool;
  uploaded_fingerprint : option string;
  current_conversation_id : option string;
}.

Definition open_conversation (conv_id : string) (warning : bool) (ss : session) : session :=
  {| page := page ss; show_override_warning := warning;
     uploaded_fingerprint := uploaded_fingerprint ss;
     current_conversation_id := Some conv_id |}.

Inductive button :=
  | LoadSavedResults
  | ViewInHistory
  | Override
  | CancelLoadSaved
  | YesProcessAnyway
  | ProcessAudio.

Definition load_and_touch `{Collaborators} (env : ambient) (conv_id : string)
  : M world unit :=
  load_conversation_turns conv_id;;
  on_db (update_last_viewed (now env 0%nat) conv_id).

Definition process_section `{Collaborators} (up : upload) (env : ambient)
    (click : option button) (ss : session) : M world session :=
  match click with
  | Some ProcessAudio =>
      created ← process_and_save up env;
      match created with
      | Some conv_id => mret (open_conversation conv_id false ss)
      | None => mret ss
      end
  | _ => mret ss
  end.

(** One run of the upload page with a file in the uploader; at most one
    button reads as pressed, and [st.rerun()] ends the run. *)
Definition upload_page `{Collaborators} (up : upload) (env : ambient)
    (click : option button) (ss0 : session) : M world session := λ w,
  let fingerprint := get_audio_fingerprint (audio_bytes up) in
  let ss := {| page := page ss0;
               show_override_warning := show_override_warning ss0;
               uploaded_fingerprint := Some fingerprint;
               current_conversation_id := current_conversation_id ss0 |} in
  let existing := find_existing_conversation fingerprint (db w) in
  match existing, show_override_warning ss with
  | Some (conv_id, _, _, _, _), false =>
      match click with
      | Some LoadSavedResults =>
          (load_and_touch env conv_id;;
           mret (open_conversation conv_id (show_override_warning ss) ss)) w
      | Some ViewInHistory =>
          (Returned {| page := HistoryPage;
                       show_override_warning := show_override_warning ss;
                       uploaded_fingerprint := uploaded_fingerprint ss;
                       current_conversation_id := Some conv_id |}, w)
      | Some Override =>
          (Returned {| page := page ss;
                       show_override_warning := true;
                       uploaded_fingerprint := uploaded_fingerprint ss;
                       current_conversation_id := current_conversation_id ss |}, w)
      | _ => (Returned ss, w)
      end
  | _, true =>
      match click with
      | Some CancelLoadSaved =>
          match find_existing_conversation fingerprint (db w) with
          | Some (conv_id, _, _, _, _) =>
              (load_and_touch env conv_id;;
               mret (open_conversation conv_id false ss)) w
          | None => (Returned ss, w)
          end
      | _ => process_section up env click ss w
      end
  | None, false => process_section up env click ss w
  end.

Inductive history_action :=
  | View (conv_id : string)
  | Delete (conv_id : string).

Definition history_page `{Collaborators} (act : history_action) (env : ambient)
    (ss : session) : M world session :=
  match act with
  | View conv_id =>
      load_and_touch env conv_id;;
      conv_meta ← reads (λ w, get_conversation_by_id conv_id (db w));
      match conv_meta with
      | Some _ => mret (open_conversation conv_id (show_override_warning ss) ss)
      | None => mret ss
      end
  | Delete conv_id =>
      delete_conversation conv_id;;
      mret (if decide (current_conversation_id ss = Some conv_id)
            then {| page := page ss;
                    show_override_warning := show_override_warning ss;
                    uploaded_fingerprint := uploaded_fingerprint ss;
                    current_conversation_id := None |}
            else ss)
  end.

(** ** Reachable worlds *)

(** [str(uuid.uuid4())] is made of hexadecimal digits and hyphens. *)
Definition is_uuid_char (c : ascii) : bool :=
  let n := N_of_ascii c in
  (((48 <=? n) && (n <=? 57)) || ((97 <=? n) && (n <=? 102)) || (n =? 45))%N.

Fixpoint is_uuid_text (s : string) : bool :=
  match s with
  | EmptyString => true
  | String c s' => is_uuid_char c && is_uuid_text s'
  end.

Inductive action `{Collaborators} :=
  | OnUploadPage (up : upload) (click : option button)
  | OnHistoryPage (act : history_action).

(** The world a run of the script leaves behind, whether it ended normally
    or with an exception. *)
Definition run `{Collaborators} (a : action) (env : ambient) (ss : session)
    (w : world) : world :=
  match a with
  | OnUploadPage up click => (upload_page up env click ss w).2
  | OnHistoryPage act => (history_page act env ss w).2
  end.

Inductive reachable `{Collaborators} : world → Prop :=
  | reachable_init : reachable init_world
  | reachable_run a env ss w :
      reachable w →
      (∀ k, is_uuid_text (uuid4 env k) = true) →
      reachable (run a env ss w).

(** ** A concrete set of collaborators

    One byte of audio per millisecond, exported as it is; text and bytes
    correspond character by character. It serves to run the definitions. *)

Definition raw_slice (audio : bytes) (start_ms end_ms : Z) : bytes :=
  take (Z.to_nat (end_ms - start_ms)) (drop (Z.to_nat start_ms) audio).

Definition lower_letters_sep_free (s : string) :
  sep_free (lower_letters s) = sep_free s.
Proof.
  induction s as [|c s IH]; [reflexivity | ]. simpl. rewrite IH. f_equal. f_equal.
  destruct c as [[] [] [] [] [] [] [] []]; reflexivity.
Qed.

Definition lower_letters_nul_free (s : string) :
  nul_free (lower_letters s) = nul_free s.
Proof.
  induction s as [|c s IH]; [reflexivity | ]. simpl. rewrite IH. f_equal. f_equal.
  destruct c as [[] [] [] [] [] [] [] []]; reflexivity.
Qed.

Definition raw_collaborators : Collaborators :=
  {| Audio := bytes;
     audio_len := λ a, Z.of_nat (length a);
     audio_slice := raw_slice;
     audio_export := λ a _, a;
     b64encode := string_of_list_byte;
     b64decode := list_byte_of_string;
     b64decode_b64encode := list_byte_of_string_of_list_byte;
     sha256_hexdigest := string_of_list_byte;
     lower := lower_letters;
     lower_is_ascii := λ s _, eq_refl;
     lower_sep_free := lower_letters_sep_free;
     lower_nul_free := lower_letters_nul_free |}.

Definition sample_env : ambient :=
  {| uuid4 := λ k, match k with
                   | 0%nat => "0a1b-0"
                   | 1%nat => "0a1b-1"
                   | 2%nat => "0a1b-2"
                   | _ => "0a1b-3"
                   end;
     now := λ k, match k with
                 | 0%nat => "2024-01-01T00:00:00"
                 | _ => "2024-01-01T00:00:01"
                 end |}.

Definition sample_session : session :=
  {| page := UploadPage; show_override_warning := false;
     uploaded_fingerprint := None; current_conversation_id := None |}.

Definition sample_audio (n : nat) : bytes := replicate n Byte.x41.

Definition raw_upload (name ext : string) (audio : bytes) (us : list utterance)
  : @upload raw_collaborators :=
  @Build_upload raw_collaborators name ext audio 2 (TranscriptCompleted us) audio.

(** Ten milliseconds of audio; the collaborator reports an empty utterance
    first and lets the second run past the end of the audio. *)
Definition gap_utterances : list utterance :=
  [ {| u_speaker := "A"; u_text := "hi"; u_start := 5; u_end := 5 |};
    {| u_speaker := "B"; u_text := "yo"; u_start := 5; u_end := 12 |} ].

Definition gap_upload : @upload raw_collaborators :=
  raw_upload "talk.wav" "wav" (sample_audio 10) gap_utterances.

Definition gap_world : world :=
  @run raw_collaborators (OnUploadPage gap_upload (Some ProcessAudio))
    sample_env sample_session init_world.

(** The conversation row the run above stores. *)
Definition gap_row : conversation_row :=
  {| c_id := "0a1b-0"; c_fingerprint := "AAAAAAAAAA"; c_filename := "talk.wav";
     c_format := "wav"; c_duration := 12 # 1000; c_speakers := 2; c_turns := 1;
     c_processed_at := "2024-01-01T00:00:00"; c_storage_path := "0a1b-0";
     c_last_viewed := "2024-01-01T00:00:01" |}.

(** The same bytes uploaded again under another name, the override
    confirmed. *)
Definition again_upload : @upload raw_collaborators :=
  raw_upload "copy.mp3" "mp3" (sample_audio 10) gap_utterances.

Definition again_env : ambient :=
  {| uuid4 := λ k, match k with 0%nat => "0a1b-7" | _ => "0a1b-8" end;
     now := λ _, "2024-01-02T00:00:00" |}.

Definition override_session : session :=
  {| page := UploadPage; show_override_warning := true;
     uploaded_fingerprint := Some "AAAAAAAAAA";
     current_conversation_id := None |}.

(** The store of [gap_world] after its segment files were lost. *)
Definition lost_world : world :=
  {| db := db gap_world; files := init_disk |}.

Definition sample_row (id fp : string) : conversation_row :=
  {| c_id := id; c_fingerprint := fp; c_filename := "talk.wav";
     c_format := "wav"; c_duration := 4 # 1000; c_speakers := 2; c_turns := 1;
     c_processed_at := "2024-01-01T00:00:00";
     c_storage_path := id; c_last_viewed := "2024-01-01T00:00:00" |}.

Definition sample_db : database :=
  {| conversations := [sample_row "0a1b-0" "f00d"]; turns := [] |}.

(** ** Vocabulary of the statements *)

(** The bounds step 2 of the pipeline computes for an utterance. *)
Definition clamp `{Collaborators} (audio : Audio) (u : utterance) : Z * Z :=
  (Z.max 0 (u_start u), Z.min (audio_len audio) (u_end u)).

(** The [conv_id] of [conv_id, filename, processed_at, turns_count,
    duration = existing]. *)
Definition found_id (existing : string * string * string * Z * Q) : string :=
  existing.1.1.1.1.

(** Python's [enumerate(us, idx)]. *)
Fixpoint enumerate {A} (idx : Z) (us : list A) : list (Z * A) :=
  match us with
  | [] => []
  | u :: rest => (idx, u) :: enumerate (idx + 1) rest
  end.

(** The utterance passes the [end_ms <= start_ms] test of the loop. *)
Definition survives `{Collaborators} (audio : Audio) (u : utterance) : Prop :=
  (clamp audio u).1 < (clamp audio u).2.

#[export] Instance survives_dec `{Collaborators} audio u : Decision (survives audio u).
Proof. unfold survives. apply _. Defined.

(** What [load_conversation_turns] makes of a row whose file holds [b]. *)
Definition loaded_turn_of `{Collaborators} (row : turn_row) (b : bytes) : loaded_turn :=
  {| l_number := t_number row; l_speaker := t_speaker row;
     l_text := t_text row; l_start := t_start_ms row # 1000;
     l_end := t_end_ms row # 1000; l_audio_b64 := b64encode b |}.

(** The row as loaded, if its segment is a file on the disk. *)
Definition read_turn `{Collaborators} (fs : disk) (row : turn_row) : option loaded_turn :=
  match fs !! path_join STORAGE_DIR (t_audio_path row) with
  | Some (File b) => Some (loaded_turn_of row b)
  | _ => None
  end.

(** The dictionary the loop appends for utterance [u] at index [idx]. *)
Definition turn_of `{Collaborators} (audio : Audio) (audio_format : string)
    (idx : Z) (u : utterance) : turn :=
  {| number := idx; speaker := u_speaker u; text := u_text u;
     start := u_start u # 1000; end_ := u_end u # 1000;
     start_ms := (clamp audio u).1; end_ms := (clamp audio u).2;
     audio_b64 := b64encode (audio_export
                    (audio_slice audio (clamp audio u).1 (clamp audio u).2)
                    audio_format);
     audio_path := None |}.

(** A freshly processed turn as it reads once stored and loaded. *)
Definition loaded_of_turn `{Collaborators} (t : turn) : loaded_turn :=
  {| l_number := number t; l_speaker := speaker t; l_text := text t;
     l_start := start_ms t # 1000; l_end := end_ms t # 1000;
     l_audio_b64 := audio_b64 t |}.

(** The relative path [save_audio_files] records for a turn. *)
Definition recorded_path `{Collaborators} (conv_id audio_format : string)
    (t : turn) : string :=
  conv_id +:+ "/segments/" +:+ segment_filename t audio_format.

Definition with_paths `{Collaborators} (conv_id audio_format : string)
    (ts : list turn) : list turn :=
  map (λ t, set_audio_path (recorded_path conv_id audio_format t) t) ts.

(** The row [save_turn] inserts for a turn. *)
Definition row_of_turn (turn_id conv_id : string) (t : turn) : turn_row :=
  {| t_id := turn_id; t_conversation_id := conv_id; t_number := number t;
     t_speaker := speaker t; t_text := text t; t_start_ms := start_ms t;
     t_end_ms := end_ms t; t_audio_path := default "" (audio_path t) |}.

(** The rows the loop over [save_turn] inserts, the first with the [k]-th
    uuid. *)
Fixpoint rows_of (conv_id : string) (uuid : nat → string) (k : nat)
    (ts : list turn) : list turn_row :=
  match ts with
  | [] => []
  | t :: rest => row_of_turn (uuid k) conv_id t :: rows_of conv_id uuid (S k) rest
  end.

(** The row the upload page inserts for the turns [ts] of an upload. *)
Definition new_conversation `{Collaborators} (up : upload) (env : ambient)
    (ts : list turn) : conversation_row :=
  {| c_id := uuid4 env 0%nat;
     c_fingerprint := get_audio_fingerprint (audio_bytes up);
     c_filename := name up; c_format := file_ext up;
     c_duration := match last ts with Some t => end_ t | None => 0%Q end;
     c_speakers := speakers_expected up;
     c_turns := Z.of_nat (length ts);
     c_processed_at := now env 0%nat;
     c_storage_path := uuid4 env 0%nat;
     c_last_viewed := now env 1%nat |}.

(** Reading a decimal numeral back, leading zeros allowed. *)
Definition read_decimal (s : string) : option N :=
  N.of_uint <$> NilEmpty.uint_of_string s.

Definition is_digit (c : ascii) : bool :=
  let n := N_of_ascii c in ((48 <=? n) && (n <=? 57))%N.

(** Where the program keeps directories and where it keeps files. *)
Definition dir_key (k : string) : Prop :=
  k = DB_DIR ∨ k = STORAGE_DIR
  ∨ ∃ c, is_uuid_text c = true
         ∧ (k = path_join STORAGE_DIR c
            ∨ k = path_join (path_join STORAGE_DIR c) "segments").

Definition file_key (k : string) : Prop :=
  ∃ c rest, is_uuid_text c = true
    ∧ (k = path_join (path_join STORAGE_DIR c) ("original." +:+ rest)
       ∨ k = path_join (path_join (path_join STORAGE_DIR c) "segments") rest).

Record disk_ok (fs : disk) : Prop := {
  ok_db_dir : fs !! DB_DIR = Some Dir;
  ok_storage_dir : fs !! STORAGE_DIR = Some Dir;
  ok_keys : ∀ k n, fs !! k = Some n →
    match n with Dir => dir_key k | File _ => file_key k end;
}.

Definition turns_of (conv_id : string) (d : database) : list turn_row :=
  filter (λ r, t_conversation_id r = conv_id) (turns d).

Record db_ok (d : database) : Prop := {
  ok_fingerprints : NoDup (map c_fingerprint (conversations d));
  ok_storage : ∀ r, r ∈ conversations d →
    c_storage_path r = c_id r ∧ is_uuid_text (c_id r) = true;
  ok_owner : ∀ t, t ∈ turns d → t_conversation_id t ∈ map c_id (conversations d);
  ok_numbers : ∀ c, StronglySorted Z.lt (map t_number (turns_of c d));
  ok_positive : ∀ t, t ∈ turns d → 1 ≤ t_number t;
  ok_paths : ∀ t, t ∈ turns d →
    ∃ f, t_audio_path t = t_conversation_id t +:+ "/segments/" +:+ f;
}.

Definition world_ok (w : world) : Prop := db_ok (db w) ∧ disk_ok (files w).

(** ** Further functions of [app.py] *)

(** [SELECT id, filename, processed_at, duration, turns, speakers,
    last_viewed FROM conversations ORDER BY processed_at DESC]; text
    compares byte by byte. *)
Definition newer_first (r1 r2 : conversation_row) : Prop :=
  String.le (c_processed_at r2) (c_processed_at r1).

#[export] Instance newer_first_dec r1 r2 : Decision (newer_first r1 r2).
Proof. unfold newer_first. apply _. Defined.

Definition get_all_conversations (d : database)
  : list (string * string * string * Q * Z * Z * string) :=
  map (λ r, (c_id r, c_filename r, c_processed_at r, c_duration r, c_turns r,
             c_speakers r, c_last_viewed r))
    (merge_sort newer_first (conversations d)).

Definition mime_types : gmap string string :=
  <["wav" := "audio/wav"]> (<["mp3" := "audio/mpeg"]> (<["ogg" := "audio/ogg"]>
  (<["m4a" := "audio/mp4"]> (<["flac" := "audio/flac"]> ∅)))).

(** [mime_types.get(audio_format, 'audio/wav')]. *)
Definition get_mime_type (audio_format : string) : string :=
  default "audio/wav" (mime_types !! audio_format).

(** What [create_zip_file] reads of a turn dictionary, fresh or loaded. *)
Class TurnDict (A : Type) := {
  d_speaker : A → string;
  d_number : A → Z;
  d_audio_b64 : A → string;
}.

#[export] Instance turn_dict : TurnDict turn :=
  {| d_speaker := speaker; d_number := number; d_audio_b64 := audio_b64 |}.

#[export] Instance loaded_turn_dict : TurnDict loaded_turn :=
  {| d_speaker := l_speaker; d_number := l_number; d_audio_b64 := l_audio_b64 |}.

(** [ZipInfo] ends the name of a member at its first NUL. *)
Fixpoint until_nul (s : string) : string :=
  match s with
  | EmptyString => EmptyString
  | String c s' =>
      if Ascii.eqb c Ascii.zero then EmptyString else String c (until_nul s')
  end.

(** The archive [create_zip_file] builds, as the members [writestr] adds to
    it in order, each a file name with its content. *)
Definition create_zip_file `{Collaborators} {A} `{TurnDict A}
    (turns : list A) (audio_format : string) : list (string * bytes) :=
  map (λ t, (until_nul (lower (d_speaker t) +:+ "_" +:+ format_03d (d_number t)
                        +:+ "." +:+ audio_format),
             b64decode (d_audio_b64 t)))
    turns.

(** The format specs [{z}] and [{z:02d}] of an integer. *)
Definition format_d (z : Z) : string :=
  if z <? 0 then "-" +:+ decimal (Z.to_N (- z)) else decimal (Z.to_N z).

Definition format_02d (z : Z) : string :=
  if z <? 0 then "-" +:+ zfill 1 (decimal (Z.to_N (- z)))
  else zfill 2 (decimal (Z.to_N z)).

(** [int(x)] truncates towards zero. *)
Definition int_of (x : Q) : Z :=
  if Qle_bool 0 x then Qfloor x else Qceiling x.

(** [x // y] and [x % y] for a positive [y]. *)
Definition floordiv (x y : Q) : Q := inject_Z (Qfloor (x / y)).

Definition modulo (x y : Q) : Q := x - y * inject_Z (Qfloor (x / y)).

Definition format_duration (seconds : Q) : string :=
  let minutes := int_of (floordiv seconds 60) in
  let secs := int_of (modulo seconds 60) in
  format_d minutes +:+ ":" +:+ format_02d secs.

(** The fields of a [datetime.timedelta] that [get_time_ago] reads. *)
Record timedelta := {
  td_days : Z;
  td_seconds : Z;
}.

Definition day_us : Z := 86400000000.

(** [now - dt] for two naive datetimes given in microseconds: the days may
    be negative, the seconds lie between 0 and 86399. *)
Definition timedelta_between (now_ dt : Z) : timedelta :=
  {| td_days := (now_ - dt) / day_us;
     td_seconds := ((now_ - dt) mod day_us) / 1000000 |}.

Definition time_ago_text (diff : timedelta) : string :=
  if 0 <? td_days diff then format_d (td_days diff) +:+ "d ago"
  else if 3600 <=? td_seconds diff
  then format_d (td_seconds diff / 3600) +:+ "h ago"
  else if 60 <=? td_seconds diff
  then format_d (td_seconds diff / 60) +:+ "m ago"
  else "Just now".

(** [fromisoformat] is [datetime.fromisoformat], [None] where it raises;
    [now_] is what [datetime.now()] answers. *)
Definition get_time_ago (fromisoformat : string → option Z) (now_ : Z)
    (iso_timestamp : option string) : string :=
  match iso_timestamp with
  | None | Some EmptyString => "Never"
  | Some stamp =>
      match fromisoformat stamp with
      | Some dt => time_ago_text (timedelta_between now_ dt)
      | None => "Unknown"
      end
  end.

(** The keys of both tables are unique. *)
Definition keys_ok (d : database) : Prop :=
  NoDup (map c_id (conversations d)) ∧ NoDup (map t_id (turns d)).

(** An upload the transcriber fails on. *)
Definition failed_upload : @upload raw_collaborators :=
  @Build_upload raw_collaborators "noise.wav" "wav" (sample_audio 10) 2
    (TranscriptError "no speech") (sample_audio 10).

(** The longest name a file or a directory may have; what a call does with
    a longer one is not described, and a statement that a write succeeds
    assumes names within it. *)
Definition NAME_MAX : nat := 255.

(** No capital letter of the ASCII range. *)
Fixpoint no_capital (s : string) : bool :=
  match s with
  | EmptyString => true
  | String c s' =>
      negb ((65 <=? N_of_ascii c) && (N_of_ascii c <=? 90))%N && no_capital s'
  end.

Definition sample_turn (n : Z) (label : string) : turn :=
  {| number := n; speaker := label; text := "hi"; start := 0; end_ := 1 # 1000;
     start_ms := 0; end_ms := 1; audio_b64 := "A"; audio_path := None |}.

(** The file name of the per-turn download button of the transcript. *)
Definition download_name {A} `{TurnDict A} (t : A) (audio_format : string) : string :=
  d_speaker t +:+ "_" +:+ format_03d (d_number t) +:+ "." +:+ audio_format.

(** What follows the last dot of [s], if there is a dot. *)
Fixpoint after_last_dot (s : string) : option string :=
  match s with
  | EmptyString => None
  | String c s' =>
      match after_last_dot s' with
      | Some r => Some r
      | None => if Ascii.eqb c "." then Some s' else None
      end
  end.

(** [s.split('.')[-1]]. *)
Definition last_dot_part (s : string) : string := default s (after_last_dot s).

(** Where the history page looks for the original of a conversation. *)
Definition history_original_path (conv_id filename : string) : string :=
  path_join (path_join STORAGE_DIR conv_id) ("original." +:+ last_dot_part filename).

(** An upload whose name carries its extension in capitals. *)
Definition capitals_upload : @upload raw_collaborators :=
  raw_upload "TALK.WAV" "wav" (sample_audio 10) gap_utterances.


(** * Properties *)

(** ** Lookups *)

Lemma head_filter_None {A} (P : A → Prop) `{∀ x, Decision (P x)} (l : list A) :
  head (filter P l) = None ↔ ∀ x, x ∈ l → ¬ P x.
Proof.
  induction l as [|a l IH]; simpl.
  - split; [intros _ x Hx; inversion Hx | done].
  - rewrite filter_cons. destruct (decide (P a)) as [Ha|Ha]; simpl.
    + split; [done | intros Hall; destruct (Hall a); [left | done]].
    + rewrite IH. split.
      * intros Hall x Hx. apply elem_of_cons in Hx as [-> | Hx]; auto.
      * intros Hall x Hx. apply Hall. by right.
Qed.

Lemma head_filter_Some {A} (P : A → Prop) `{∀ x, Decision (P x)} (l : list A) x :
  head (filter P l) = Some x → x ∈ l ∧ P x.
Proof.
  intros Hx. apply head_Some in Hx as [l' Hl'].
  assert (x ∈ filter P l) as Hin by (rewrite Hl'; left).
  by apply list_elem_of_filter in Hin as [? ?].
Qed.

Lemma row_absent conv_id (d : database) :
  conv_id ∉ map c_id (conversations d) →
  head (filter (λ r, c_id r = conv_id) (conversations d)) = None.
Proof.
  intros Hnot. apply head_filter_None. intros r Hr Heq. apply Hnot.
  rewrite <- Heq. apply list_elem_of_fmap. eauto.
Qed.

(** ** Path text *)

Lemma sapp_cons c (s t : string) : String c s +:+ t = String c (s +:+ t).
Proof. reflexivity. Qed.

Lemma sapp_nil_l (t : string) : "" +:+ t = t.
Proof. reflexivity. Qed.

Lemma sapp_assoc (a b c : string) : (a +:+ b) +:+ c = a +:+ (b +:+ c).
Proof.
  induction a as [|x a IH]; [done | ]. by rewrite !sapp_cons, IH.
Qed.

Lemma sapp_length (a b : string) :
  String.length (a +:+ b) = (String.length a + String.length b)%nat.
Proof.
  induction a as [|x a IH]; [done | ]. rewrite sapp_cons. simpl. by rewrite IH.
Qed.

Lemma uuid_sep_free c : is_uuid_text c = true → sep_free c = true.
Proof.
  induction c as [|x c IH]; [done | ]. simpl.
  intros [Hx Hc]%andb_prop. rewrite (IH Hc), andb_true_r.
  destruct (Ascii.eqb_spec x "/") as [-> | ]; [discriminate Hx | done].
Qed.

(** A name cannot contain a joined path. *)
Lemma sep_free_not_joined a b x : sep_free a = true → a ≠ b +:+ "/" +:+ x.
Proof.
  revert a. induction b as [|y b IH]; intros a Ha Heq.
  - rewrite sapp_nil_l in Heq. subst a. discriminate Ha.
  - rewrite sapp_cons in Heq. subst a. simpl in Ha.
    apply andb_prop in Ha as [_ Ha]. by eapply IH.
Qed.

(** The first separator splits a path in one way only. *)
Lemma split_first_sep a b x y :
  sep_free a = true → sep_free b = true →
  a +:+ "/" +:+ x = b +:+ "/" +:+ y → a = b ∧ x = y.
Proof.
  revert b. induction a as [|c a IH]; intros b Ha Hb Heq.
  - destruct b as [|c' b].
    + rewrite !sapp_nil_l in Heq. by injection Heq.
    + rewrite sapp_nil_l, sapp_cons in Heq. injection Heq as <- _.
      discriminate Hb.
  - destruct b as [|c' b].
    + rewrite sapp_nil_l, sapp_cons in Heq. injection Heq as -> _.
      discriminate Ha.
    + rewrite !sapp_cons in Heq. injection Heq as -> Heq.
      simpl in Ha, Hb. apply andb_prop in Ha as [_ Ha], Hb as [_ Hb].
      destruct (IH b Ha Hb Heq) as [-> ->]. done.
Qed.

Lemma under_storage c rest :
  path_join (path_join STORAGE_DIR c) rest
  = STORAGE_DIR +:+ "/" +:+ (c +:+ "/" +:+ rest).
Proof. unfold path_join. by rewrite !sapp_assoc. Qed.

Lemma storage_child_inj c c' : path_join STORAGE_DIR c = path_join STORAGE_DIR c' → c = c'.
Proof.
  unfold path_join. intros Heq.
  apply (inj (append STORAGE_DIR)) in Heq. by apply (inj (append "/")) in Heq.
Qed.

(** No path is both a place for a directory and a place for a file. *)
Lemma dir_file_disjoint k : dir_key k → file_key k → False.
Proof.
  intros Hd (c & rest & Hc & Hk).
  assert (∃ tail, k = STORAGE_DIR +:+ "/" +:+ (c +:+ "/" +:+ tail)
                  ∧ tail ≠ "segments") as (tl & -> & Htl).
  { destruct Hk as [-> | ->].
    - eexists. split; [apply under_storage | done].
    - exists ("segments/" +:+ rest). split.
      + unfold path_join. by rewrite !sapp_assoc.
      + intros Heq. apply (f_equal String.length) in Heq.
        rewrite sapp_length in Heq. simpl in Heq. lia. }
  apply uuid_sep_free in Hc.
  destruct Hd as [Hd | [Hd | (c' & Hc' & [Hd | Hd])]].
  - discriminate Hd.
  - apply (f_equal String.length) in Hd. rewrite !sapp_length in Hd.
    simpl in Hd. lia.
  - unfold path_join in Hd. apply (inj (append STORAGE_DIR)) in Hd.
    apply (inj (append "/")) in Hd. apply uuid_sep_free in Hc'.
    symmetry in Hd. exact (sep_free_not_joined _ _ _ Hc' Hd).
  - rewrite under_storage in Hd. apply (inj (append STORAGE_DIR)) in Hd.
    apply (inj (append "/")) in Hd. apply uuid_sep_free in Hc'.
    apply split_first_sep in Hd as [_ ?]; done.
Qed.

Lemma sep_free_app (a b : string) : sep_free (a +:+ b) = sep_free a && sep_free b.
Proof.
  induction a as [|x a IH]; [done | ]. rewrite sapp_cons. simpl.
  by rewrite IH, andb_assoc.
Qed.

Lemma nul_free_app (a b : string) : nul_free (a +:+ b) = nul_free a && nul_free b.
Proof.
  induction a as [|x a IH]; [done | ]. rewrite sapp_cons. simpl.
  by rewrite IH, andb_assoc.
Qed.

Lemma uuid_nul_free c : is_uuid_text c = true → nul_free c = true.
Proof.
  induction c as [|x c IH]; [done | ]. simpl.
  intros [Hx Hc]%andb_prop. rewrite (IH Hc), andb_true_r.
  destruct (Ascii.eqb_spec x Ascii.zero) as [-> | ]; [discriminate Hx | done].
Qed.

Lemma nul_free_join d n : nul_free (path_join d n) = nul_free d && nul_free n.
Proof. unfold path_join. by rewrite !nul_free_app. Qed.

Lemma path_join_length d n :
  String.length (path_join d n) = (String.length d + 1 + String.length n)%nat.
Proof. unfold path_join. rewrite !sapp_length. simpl. lia. Qed.

Lemma plain_parts s : plain s = true ↔ sep_free s = true ∧ nul_free s = true.
Proof. unfold plain. apply andb_true_iff. Qed.

(** The directory a name is looked up in. *)
Lemma dirname_name n : sep_free n = true → dirname n = None.
Proof.
  induction n as [|c n IH]; [done | ]. simpl. intros [Hc Hn]%andb_prop.
  rewrite (IH Hn). by destruct (Ascii.eqb c "/").
Qed.

Lemma dirname_join d n : sep_free n = true → dirname (path_join d n) = Some d.
Proof.
  intros Hn. unfold path_join. induction d as [|c d IH].
  - rewrite sapp_nil_l. change ("/" +:+ n) with (String "/" n). simpl.
    by rewrite (dirname_name n Hn).
  - rewrite sapp_cons. simpl. by rewrite IH.
Qed.

Lemma parent_error_present d n (fs : disk) :
  sep_free n = true → fs !! d = Some Dir → parent_error (path_join d n) fs = None.
Proof.
  intros Hn Hd. unfold parent_error. rewrite (dirname_join d n Hn).
  destruct d; [done | by rewrite Hd].
Qed.

Lemma ancestors_from_name acc n : sep_free n = true → ancestors_from acc n = [].
Proof.
  revert acc. induction n as [|c n IH]; intros acc; [done | ]. simpl.
  intros [Hc Hn]%andb_prop. rewrite (IH _ Hn).
  by destruct (Ascii.eqb c "/").
Qed.

Lemma ancestors_from_app acc (a b : string) :
  ancestors_from acc (a +:+ b)
  = ancestors_from acc a ++ ancestors_from (acc +:+ a) b.
Proof.
  revert acc. induction a as [|c a IH]; intros acc.
  - rewrite sapp_nil_l. simpl. f_equal.
    induction acc as [|x acc IHacc]; [done | ]. by rewrite sapp_cons, <- IHacc.
  - rewrite sapp_cons. simpl. rewrite IH, <- (assoc_L (++)). do 3 f_equal.
    rewrite sapp_assoc. done.
Qed.

Lemma ancestors_storage_child c :
  sep_free c = true → ancestors (path_join STORAGE_DIR c) = [DB_DIR; STORAGE_DIR].
Proof.
  intros Hc. unfold ancestors, path_join.
  rewrite !ancestors_from_app, (ancestors_from_name _ c Hc). reflexivity.
Qed.

(** ** What lies inside a directory *)
Lemma prefix_app_iff (p s : string) :
  String.prefix p s = true ↔ ∃ r, s = p +:+ r.
Proof.
  revert s. induction p as [|a p IH]; intros s.
  - destruct s; simpl; split; eauto.
  - destruct s as [|b s]; simpl.
    + split; [done | intros [r Hr]; by rewrite sapp_cons in Hr].
    + destruct (ascii_dec a b) as [-> | Hne].
      * rewrite IH. split; intros [r Hr]; exists r.
        -- by rewrite sapp_cons, Hr.
        -- rewrite sapp_cons in Hr. by injection Hr.
      * split; [done | intros [r Hr]]. rewrite sapp_cons in Hr.
        injection Hr as -> _. done.
Qed.

Lemma inside_iff d k :
  inside d k = true ↔ k = d ∨ ∃ r, k = d +:+ "/" +:+ r.
Proof.
  unfold inside. rewrite orb_true_iff, bool_decide_eq_true, prefix_app_iff.
  split; intros [? | [r Hr]]; auto; right; exists r.
  - by rewrite Hr, sapp_assoc.
  - by rewrite Hr, sapp_assoc.
Qed.

Lemma inside_child c rest :
  inside (path_join STORAGE_DIR c) (path_join (path_join STORAGE_DIR c) rest) = true.
Proof. apply inside_iff. right. by exists rest. Qed.

(** The directories of two conversations are disjoint. *)
Lemma inside_other c c' rest :
  sep_free c = true → sep_free c' = true → c ≠ c' →
  inside (path_join STORAGE_DIR c) (path_join (path_join STORAGE_DIR c') rest) = false.
Proof.
  intros Hc Hc' Hne. apply not_true_is_false. intros Hin.
  apply inside_iff in Hin as [Heq | [r Heq]]; rewrite under_storage in Heq;
    unfold path_join in Heq.
  - apply (inj (append STORAGE_DIR)) in Heq. apply (inj (append "/")) in Heq.
    symmetry in Heq. exact (sep_free_not_joined _ _ _ Hc Heq).
  - rewrite !sapp_assoc in Heq.
    apply (inj (append STORAGE_DIR)) in Heq. apply (inj (append "/")) in Heq.
    apply split_first_sep in Heq as [? _]; congruence.
Qed.

Lemma inside_self d : inside d d = true.
Proof. unfold inside. by rewrite bool_decide_eq_true_2. Qed.

Lemma longer_not_inside d k :
  (String.length k < String.length d)%nat → inside d k = false.
Proof.
  intros Hlen. apply not_true_is_false. intros Hin.
  apply inside_iff in Hin as [-> | [r ->]]; [lia | ].
  rewrite !sapp_length in Hlen. lia.
Qed.

Lemma storage_not_inside c : inside (path_join STORAGE_DIR c) STORAGE_DIR = false.
Proof.
  apply longer_not_inside. unfold path_join. rewrite !sapp_length. simpl. lia.
Qed.

Lemma db_dir_not_inside c : inside (path_join STORAGE_DIR c) DB_DIR = false.
Proof.
  apply longer_not_inside. unfold path_join. rewrite !sapp_length. simpl. lia.
Qed.

Lemma original_not_inside_segments conv_id rest :
  inside (path_join (path_join STORAGE_DIR conv_id) "segments")
    (path_join (path_join STORAGE_DIR conv_id) ("original." +:+ rest)) = false.
Proof.
  apply not_true_is_false. intros Hin.
  apply inside_iff in Hin as [Heq | [r Heq]]; unfold path_join in Heq.
  - apply (inj (append (STORAGE_DIR +:+ "/" +:+ conv_id))) in Heq.
    apply (inj (append "/")) in Heq. discriminate Heq.
  - rewrite !sapp_assoc in Heq.
    apply (inj (append STORAGE_DIR)) in Heq. apply (inj (append "/")) in Heq.
    apply (inj (append conv_id)) in Heq. apply (inj (append "/")) in Heq.
    discriminate Heq.
Qed.

Lemma directory_not_inside_segments conv_id :
  inside (path_join (path_join STORAGE_DIR conv_id) "segments")
    (path_join STORAGE_DIR conv_id) = false.
Proof.
  apply not_true_is_false. intros Hin.
  apply inside_iff in Hin as [Heq | [r Heq]];
    apply (f_equal String.length) in Heq; unfold path_join in Heq;
    rewrite !sapp_length in Heq; simpl in Heq; lia.
Qed.


Lemma not_inside_not_child d k n : inside d k = false → k ≠ path_join d n.
Proof.
  intros Hout ->.
  assert (inside d (path_join d n) = true) by (apply inside_iff; right; eauto).
  congruence.
Qed.

(** ** Conversation repository *)

(** C3. [save_conversation] raises sqlite3's constraint error, and stores
    nothing, whenever some stored conversation already carries the
    fingerprint: the [UNIQUE] column rejects the row whatever the caller
    checked beforehand. Hence no call, failed or not, makes two stored
    conversations share a fingerprint. *)
Theorem save_conversation_rejects_known_fingerprint
    (processed_at last_viewed conv_id fingerprint filename audio_format : string)
    (duration : Q) (speakers turns_count : Z) (storage_path : string)
    (d : database) :
  fingerprint ∈ map c_fingerprint (conversations d) →
  save_conversation processed_at last_viewed conv_id fingerprint filename
    audio_format duration speakers turns_count storage_path d
  = (Raised IntegrityError, d)
  ∧ ∀ conv_id' fingerprint' d',
      NoDup (map c_fingerprint (conversations d')) →
      NoDup (map c_fingerprint
               (conversations
                  (save_conversation processed_at last_viewed conv_id'
                     fingerprint' filename audio_format duration speakers
                     turns_count storage_path d').2)).
Proof.
  intros Hin. split.
  - unfold save_conversation.
    destruct (decide _) as [_ | Hno]; [done | ].
    exfalso. apply Hno. by right.
  - intros conv_id' fingerprint' d' Hnd. unfold save_conversation.
    destruct (decide _) as [_ | Hno]; [done | ].
    cbn [snd conversations]. rewrite fmap_app. apply NoDup_app.
    split; [done | ]. split; [ | apply NoDup_singleton].
    intros x Hx Hx'. simpl in Hx'. apply list_elem_of_singleton in Hx'.
    subst x. apply Hno. by right.
Qed.

Lemma save_conversation_rejects_known_fingerprint_witness :
  ("f00d" ∈ map c_fingerprint (conversations sample_db))
  ∧ save_conversation "t1" "t2" "0a1b-7" "f00d" "again.mp3" "mp3" (9 # 1000) 2 3
      "0a1b-7" sample_db
    = (Raised IntegrityError, sample_db).
Proof.
  assert ("f00d" ∈ map c_fingerprint (conversations sample_db)) as Hin
    by (simpl; left).
  split; [exact Hin | ].
  exact (proj1 (save_conversation_rejects_known_fingerprint "t1" "t2" "0a1b-7"
                  "f00d" "again.mp3" "mp3" (9 # 1000) 2 3 "0a1b-7" sample_db
                  Hin)).
Defined.

(** C7, as the code has it. [update_last_viewed] returns normally whether or
    not the id is stored; on an absent id it leaves the store as it was, and
    on a stored id it rewrites [last_viewed] of that row and nothing else. *)
Theorem update_last_viewed_silent (now_ conv_id : string) (d : database) :
  (update_last_viewed now_ conv_id d).1 = Returned ()
  ∧ turns (update_last_viewed now_ conv_id d).2 = turns d
  ∧ Forall2 (λ r r', if decide (c_id r = conv_id)
                     then r' = set_last_viewed now_ r else r' = r)
      (conversations d) (conversations (update_last_viewed now_ conv_id d).2)
  ∧ (conv_id ∉ map c_id (conversations d) →
     (update_last_viewed now_ conv_id d).2 = d).
Proof.
  unfold update_last_viewed; simpl. repeat split.
  - induction (conversations d) as [|r l IH]; simpl; constructor; [ | done].
    by destruct (decide (c_id r = conv_id)).
  - intros Hnot. destruct d as [cs ts]; simpl in *. f_equal.
    induction cs as [|r l IH]; [done | ]. simpl in *.
    apply not_elem_of_cons in Hnot as [Hne Hnot].
    destruct (decide (c_id r = conv_id)); [congruence | ].
    by rewrite IH.
Qed.

Lemma update_last_viewed_silent_witness :
  ("0a1b-9" ∉ map c_id (conversations sample_db))
  ∧ (update_last_viewed "t" "0a1b-9" sample_db).1 = Returned ()
  ∧ (update_last_viewed "t" "0a1b-9" sample_db).2 = sample_db.
Proof.
  assert ("0a1b-9" ∉ map c_id (conversations sample_db)) as Hnot.
  { simpl. intros Hin. apply list_elem_of_singleton in Hin. discriminate. }
  split; [exact Hnot | ].
  pose proof (update_last_viewed_silent "t" "0a1b-9" sample_db) as (Ho & _ & _ & Hd).
  split; [exact Ho | exact (Hd Hnot)].
Defined.

(** C7, as the claim states it, fails: an absent id and a stored id give the
    same outcome, so nothing tells the caller that the id does not exist. *)
Lemma update_last_viewed_absent_not_signalled :
  ("0a1b-9" ∉ map c_id (conversations sample_db))
  ∧ ("0a1b-0" ∈ map c_id (conversations sample_db))
  ∧ (update_last_viewed "t" "0a1b-9" sample_db).1
    = (update_last_viewed "t" "0a1b-0" sample_db).1.
Proof.
  split; [ | split; [simpl; left | reflexivity]].
  simpl. intros Hin. apply list_elem_of_singleton in Hin. discriminate.
Qed.

(** C9. [delete_conversation] on an id that has no conversation row returns
    without touching the tables or the disk. *)
Theorem delete_conversation_absent (conv_id : string) (w : world) :
  conv_id ∉ map c_id (conversations (db w)) →
  delete_conversation conv_id w = (Returned (), w).
Proof.
  intros Hnot. unfold delete_conversation. by rewrite row_absent.
Qed.

Lemma delete_conversation_absent_witness :
  ("0a1b-9" ∉ map c_id (conversations (db init_world)))
  ∧ delete_conversation "0a1b-9" init_world = (Returned (), init_world).
Proof.
  assert ("0a1b-9" ∉ map c_id (conversations (db init_world))) as Hnot.
  { simpl. apply not_elem_of_nil. }
  split; [exact Hnot | exact (delete_conversation_absent "0a1b-9" init_world Hnot)].
Defined.

(** ** Segmentation *)

Ltac munfold :=
  unfold mbind, mret, M_bind, M_ret, bind, ret, raise, reads, on_db, on_disk in *.

Section Segmentation.
Context `{Collaborators}.

Lemma extract_turns_clamped audio audio_format idx us :
  map (λ t, (start_ms t, end_ms t)) (extract_turns audio audio_format idx us)
  = filter (λ p, p.1 < p.2) (map (clamp audio) us).
Proof.
  revert idx. induction us as [|u us IH]; intros idx; [done | ].
  simpl. rewrite filter_cons. simpl.
  destruct (Z.leb_spec (Z.min (audio_len audio) (u_end u)) (Z.max 0 (u_start u)));
    destruct (decide _); try lia; simpl; by rewrite IH.
Qed.

Lemma extract_turns_bounds audio audio_format idx us :
  Forall (λ t, 0 ≤ start_ms t < end_ms t ∧ end_ms t ≤ audio_len audio)
    (extract_turns audio audio_format idx us).
Proof.
  revert idx. induction us as [|u us IH]; intros idx; simpl; [constructor | ].
  destruct (Z.leb_spec (Z.min (audio_len audio) (u_end u)) (Z.max 0 (u_start u)));
    [apply IH | ].
  constructor; [simpl; lia | apply IH].
Qed.

(** The numbers are the positions in the collaborator's list: increasing,
    and between the first index and the last. *)
Lemma extract_turns_numbers audio audio_format idx us :
  StronglySorted Z.lt (map number (extract_turns audio audio_format idx us))
  ∧ Forall (λ t, idx ≤ number t < idx + Z.of_nat (length us))
      (extract_turns audio audio_format idx us).
Proof.
  revert idx. induction us as [|u us IH]; intros idx; simpl.
  - split; constructor.
  - destruct (IH (idx + 1)) as [Hs Hb].
    assert (Forall (λ t, idx ≤ number t < idx + Z.pos (Pos.of_succ_nat (length us)))
              (extract_turns audio audio_format (idx + 1) us)) as Hb'.
    { eapply Forall_impl; [exact Hb | ]. simpl. intros t. lia. }
    destruct (Z.leb_spec (Z.min (audio_len audio) (u_end u)) (Z.max 0 (u_start u)));
      [done | ].
    split; simpl.
    + constructor; [done | ]. apply Forall_fmap.
      eapply Forall_impl; [exact Hb | ]. simpl. intros t. lia.
    + constructor; [simpl; lia | done].
Qed.

Lemma extract_turns_no_path audio audio_format idx us :
  Forall (λ t, audio_path t = None) (extract_turns audio audio_format idx us).
Proof.
  revert idx. induction us as [|u us IH]; intros idx; simpl; [constructor | ].
  destruct (_ <=? _); [apply IH | constructor; [done | apply IH]].
Qed.

End Segmentation.


(** ** The disk *)

Lemma db_dir_is_dir_key : dir_key DB_DIR.
Proof. by left. Qed.

Lemma storage_dir_is_dir_key : dir_key STORAGE_DIR.
Proof. right. by left. Qed.

Lemma conversation_dir_key c :
  is_uuid_text c = true → dir_key (path_join STORAGE_DIR c).
Proof. intros Hc. right; right. exists c. split; [done | by left]. Qed.

Lemma segments_dir_key c :
  is_uuid_text c = true → dir_key (path_join (path_join STORAGE_DIR c) "segments").
Proof. intros Hc. right; right. exists c. split; [done | by right]. Qed.

Lemma disk_ok_insert_dir p (fs : disk) :
  disk_ok fs → dir_key p → disk_ok (<[p := Dir]> fs).
Proof.
  intros [Hdb Hst Hkeys] Hp. split.
  - destruct (decide (p = DB_DIR)) as [-> | Hne];
      [apply lookup_insert_eq | by rewrite lookup_insert_ne].
  - destruct (decide (p = STORAGE_DIR)) as [-> | Hne];
      [apply lookup_insert_eq | by rewrite lookup_insert_ne].
  - intros k n. rewrite lookup_insert.
    destruct (decide (p = k)) as [<- | _]; [ | apply Hkeys].
    by intros [= <-].
Qed.

Lemma disk_ok_insert_file p b (fs : disk) :
  disk_ok fs → file_key p → disk_ok (<[p := File b]> fs).
Proof.
  intros [Hdb Hst Hkeys] Hp. split.
  - rewrite lookup_insert_ne; [done | ]. intros ->.
    exact (dir_file_disjoint _ db_dir_is_dir_key Hp).
  - rewrite lookup_insert_ne; [done | ]. intros ->.
    exact (dir_file_disjoint _ storage_dir_is_dir_key Hp).
  - intros k n. rewrite lookup_insert.
    destruct (decide (p = k)) as [<- | _]; [ | apply Hkeys].
    by intros [= <-].
Qed.

Lemma init_disk_ok : disk_ok init_disk.
Proof.
  unfold init_disk. split.
  - rewrite lookup_insert_ne by done. apply lookup_insert_eq.
  - apply lookup_insert_eq.
  - intros k n. rewrite !lookup_insert, lookup_empty.
    repeat case_decide; intros [= <-]; subst;
      [apply storage_dir_is_dir_key | apply db_dir_is_dir_key].
Qed.

(** Each operation either fails and leaves the disk as it was, or adds the
    one node it was asked for. *)
Lemma make_dir_cases p (fs : disk) :
  (fs !! p = Some Dir ∧ make_dir p fs = (Returned (), fs))
  ∨ (fs !! p = None ∧ make_dir p fs = (Returned (), <[p := Dir]> fs))
  ∨ ∃ e, make_dir p fs = (Raised e, fs).
Proof.
  unfold make_dir. destruct (fs !! p) as [[b | ] | ];
    [right; right; eauto | by left | right; by left].
Qed.

Lemma mkdir_cases p (fs : disk) :
  (fs !! p = Some Dir ∧ mkdir p fs = (Returned (), fs))
  ∨ (fs !! p = None ∧ mkdir p fs = (Returned (), <[p := Dir]> fs))
  ∨ ∃ e, mkdir p fs = (Raised e, fs).
Proof.
  unfold mkdir. destruct (nul_free p); simpl; [ | right; right; eauto].
  destruct (parent_error p fs); [right; right; eauto | ].
  destruct (fs !! p) as [[b | ] | ];
    [right; right; eauto | by left | right; by left].
Qed.

Lemma write_file_cases p b (fs : disk) :
  (write_file p b fs = (Returned (), <[p := File b]> fs)
   ∧ nul_free p = true ∧ parent_error p fs = None ∧ fs !! p ≠ Some Dir)
  ∨ ∃ e, write_file p b fs = (Raised e, fs).
Proof.
  unfold write_file. destruct (nul_free p); simpl; [ | right; eauto].
  destruct (parent_error p fs); [right; eauto | ].
  destruct (fs !! p) as [[b' | ] | ]; [by left | right; eauto | by left].
Qed.

Lemma make_dir_preserves p (fs : disk) :
  disk_ok fs → dir_key p → disk_ok (make_dir p fs).2.
Proof.
  intros Hok Hp.
  destruct (make_dir_cases p fs) as [[_ ->] | [[_ ->] | [e ->]]]; try done.
  by apply disk_ok_insert_dir.
Qed.

Lemma mkdir_preserves p (fs : disk) :
  disk_ok fs → dir_key p → disk_ok (mkdir p fs).2.
Proof.
  intros Hok Hp.
  destruct (mkdir_cases p fs) as [[_ ->] | [[_ ->] | [e ->]]]; try done.
  by apply disk_ok_insert_dir.
Qed.

Lemma write_file_preserves p b (fs : disk) :
  disk_ok fs → file_key p → disk_ok (write_file p b fs).2.
Proof.
  intros Hok Hp.
  destruct (write_file_cases p b fs) as [[-> _] | [e ->]]; [ | done].
  by apply disk_ok_insert_file.
Qed.

Lemma make_dir_frame p (fs : disk) k : k ≠ p → (make_dir p fs).2 !! k = fs !! k.
Proof.
  intros Hk.
  destruct (make_dir_cases p fs) as [[_ ->] | [[_ ->] | [e ->]]]; try done.
  by apply lookup_insert_ne.
Qed.

Lemma mkdir_frame p (fs : disk) k : k ≠ p → (mkdir p fs).2 !! k = fs !! k.
Proof.
  intros Hk.
  destruct (mkdir_cases p fs) as [[_ ->] | [[_ ->] | [e ->]]]; try done.
  by apply lookup_insert_ne.
Qed.

Lemma write_file_frame p b (fs : disk) k :
  k ≠ p → (write_file p b fs).2 !! k = fs !! k.
Proof.
  intros Hk.
  destruct (write_file_cases p b fs) as [[-> _] | [e ->]]; [ | done].
  by apply lookup_insert_ne.
Qed.

Lemma rmtree_frame d (fs : disk) k :
  inside d k = false → (rmtree d fs).2 !! k = fs !! k.
Proof.
  intros Hk. unfold rmtree.
  destruct (fs !! d) as [[b' | ] | ]; simpl; try done;
    (destruct (fs !! k) as [n | ] eqn:Hlook;
     [by apply map_lookup_filter_Some | apply map_lookup_filter_None; by left]).
Qed.

Lemma bind_snd_frame {A B} (m : M disk A) (f : A → M disk B) (fs : disk) k :
  (m fs).2 !! k = fs !! k →
  (∀ a fs1, (f a fs1).2 !! k = fs1 !! k) →
  ((m ≫= f) fs).2 !! k = fs !! k.
Proof.
  intros Hm Hf. munfold. destruct (m fs) as [[a | e] fs1]; simpl in *; [ | done].
  by rewrite Hf.
Qed.

(** What a returned call leaves behind. *)
Lemma mkdir_returned p (fs fs' : disk) :
  mkdir p fs = (Returned (), fs') → fs' !! p = Some Dir.
Proof.
  destruct (mkdir_cases p fs) as [[Hp ->] | [[_ ->] | [e ->]]]; intros [= <-];
    [done | apply lookup_insert_eq].
Qed.

Lemma write_file_returned p b (fs fs' : disk) :
  write_file p b fs = (Returned (), fs') →
  fs' = <[p := File b]> fs ∧ nul_free p = true.
Proof.
  destruct (write_file_cases p b fs) as [(-> & Hnul & _) | [e ->]];
    intros [= <-]; done.
Qed.

(** A directory whose parent is there can be made, and a file written into
    a directory that is there. *)
Lemma mkdir_ok d n (fs : disk) :
  disk_ok fs → dir_key (path_join d n) →
  sep_free n = true → nul_free (path_join d n) = true → fs !! d = Some Dir →
  ∃ fs', mkdir (path_join d n) fs = (Returned (), fs') ∧ disk_ok fs'
         ∧ fs' !! path_join d n = Some Dir
         ∧ ∀ k, k ≠ path_join d n → fs' !! k = fs !! k.
Proof.
  intros Hok Hp Hn Hnul Hd. unfold mkdir.
  rewrite Hnul, (parent_error_present d n fs Hn Hd). simpl.
  destruct (fs !! path_join d n) as [[b | ] | ] eqn:Hlook.
  - destruct (dir_file_disjoint _ Hp). exact (ok_keys _ Hok _ _ Hlook).
  - by exists fs.
  - exists (<[path_join d n := Dir]> fs). split; [done | ].
    split; [by apply disk_ok_insert_dir | ].
    split; [apply lookup_insert_eq | ].
    intros k Hk. by apply lookup_insert_ne.
Qed.

Lemma write_file_ok d n b (fs : disk) :
  disk_ok fs → file_key (path_join d n) →
  sep_free n = true → nul_free (path_join d n) = true → fs !! d = Some Dir →
  write_file (path_join d n) b fs = (Returned (), <[path_join d n := File b]> fs)
  ∧ disk_ok (<[path_join d n := File b]> fs).
Proof.
  intros Hok Hp Hn Hnul Hd. split; [ | by apply disk_ok_insert_file].
  unfold write_file. rewrite Hnul, (parent_error_present d n fs Hn Hd). simpl.
  destruct (fs !! path_join d n) as [[b' | ] | ] eqn:Hlook; try done.
  destruct (dir_file_disjoint (path_join d n) (ok_keys _ Hok _ _ Hlook) Hp).
Qed.

Lemma nul_free_storage_child c :
  nul_free c = true → nul_free (path_join STORAGE_DIR c) = true.
Proof. intros Hc. unfold path_join. by rewrite !nul_free_app, Hc. Qed.

(** With the two directories of the program in place, [parents=True] has
    nothing to add for the directory of a conversation. *)
Lemma mkdir_parents_storage_child c (fs : disk) :
  sep_free c = true → nul_free c = true →
  fs !! DB_DIR = Some Dir → fs !! STORAGE_DIR = Some Dir →
  mkdir_parents (path_join STORAGE_DIR c) fs = mkdir (path_join STORAGE_DIR c) fs.
Proof.
  intros Hsep Hnul Hdb Hst. unfold mkdir_parents.
  rewrite (nul_free_storage_child c Hnul), (ancestors_storage_child c Hsep).
  simpl. munfold. unfold make_dir. by rewrite Hdb, Hst.
Qed.

Lemma mkdir_parents_ok c (fs : disk) :
  disk_ok fs → is_uuid_text c = true →
  ∃ fs', mkdir_parents (path_join STORAGE_DIR c) fs = (Returned (), fs')
         ∧ disk_ok fs'
         ∧ fs' !! path_join STORAGE_DIR c = Some Dir
         ∧ ∀ k, k ≠ path_join STORAGE_DIR c → fs' !! k = fs !! k.
Proof.
  intros Hok Hc.
  rewrite mkdir_parents_storage_child;
    [ | by apply uuid_sep_free | by apply uuid_nul_free
      | apply (ok_db_dir _ Hok) | apply (ok_storage_dir _ Hok)].
  apply mkdir_ok; [done | by apply conversation_dir_key | by apply uuid_sep_free | | ].
  - by apply nul_free_storage_child, uuid_nul_free.
  - apply (ok_storage_dir _ Hok).
Qed.

Lemma mkdir_parents_preserves c (fs : disk) :
  disk_ok fs → is_uuid_text c = true →
  disk_ok (mkdir_parents (path_join STORAGE_DIR c) fs).2.
Proof.
  intros Hok Hc.
  by destruct (mkdir_parents_ok c fs Hok Hc) as (fs' & -> & Hok' & _).
Qed.

Lemma mkdir_parents_returned p (fs fs' : disk) :
  mkdir_parents p fs = (Returned (), fs') → fs' !! p = Some Dir.
Proof.
  unfold mkdir_parents. destruct (nul_free p); simpl; [ | done]. munfold.
  destruct (make_dirs (ancestors p) fs) as [[[] | e] fs1]; [ | done].
  apply mkdir_returned.
Qed.

Lemma rmtree_ok c (fs : disk) :
  disk_ok fs → is_uuid_text c = true →
  ∃ fs', rmtree (path_join STORAGE_DIR c) fs = (Returned (), fs')
         ∧ disk_ok fs' ∧ fs' !! path_join STORAGE_DIR c = None.
Proof.
  intros Hok Hc.
  exists (filter (λ kv, inside (path_join STORAGE_DIR c) kv.1 = false) fs).
  split; [ | split].
  - unfold rmtree.
    destruct (fs !! path_join STORAGE_DIR c) as [[b | ] | ] eqn:Hlook; try done.
    destruct (dir_file_disjoint _ (conversation_dir_key c Hc)).
    exact (ok_keys _ Hok _ _ Hlook).
  - split.
    + apply map_lookup_filter_Some. split; [apply (ok_db_dir _ Hok) | ].
      apply db_dir_not_inside.
    + apply map_lookup_filter_Some. split; [apply (ok_storage_dir _ Hok) | ].
      apply storage_not_inside.
    + intros k n [Hk _]%map_lookup_filter_Some. by apply (ok_keys _ Hok).
  - apply map_lookup_filter_None. right. intros n _. simpl.
    by rewrite inside_self.
Qed.

Section Blobs.
Context `{Collaborators}.

Lemma save_segments_outcome conv_id segments_dir audio_format ts (fs : disk) :
  (∃ e, (save_segments conv_id segments_dir audio_format ts fs).1 = Raised e)
  ∨ (save_segments conv_id segments_dir audio_format ts fs).1
    = Returned (with_paths conv_id audio_format ts).
Proof.
  revert fs. induction ts as [|t ts IH]; intros fs; [by right | ].
  simpl. munfold. destruct (write_file _ _ fs) as [[[] | e] fs1]; [ | left; eauto].
  specialize (IH fs1).
  destruct (save_segments _ _ _ ts fs1) as [[ts' | e] fs2]; simpl in *.
  - destruct IH as [[e He] | IH]; [done | ]. right. by injection IH as ->.
  - left; eauto.
Qed.

Lemma save_audio_files_outcome conv_id audio_bytes audio_format ts (fs : disk) :
  (∃ e, (save_audio_files conv_id audio_bytes audio_format ts fs).1 = Raised e)
  ∨ (save_audio_files conv_id audio_bytes audio_format ts fs).1
    = Returned (with_paths conv_id audio_format ts).
Proof.
  unfold save_audio_files. munfold.
  destruct (mkdir_parents _ fs) as [[[] | e] fs1]; [ | left; eauto].
  destruct (mkdir _ fs1) as [[[] | e] fs2]; [ | left; eauto].
  destruct (write_file _ _ fs2) as [[[] | e] fs3]; [ | left; eauto].
  apply save_segments_outcome.
Qed.

Lemma segment_key conv_id f :
  is_uuid_text conv_id = true →
  file_key (path_join (path_join (path_join STORAGE_DIR conv_id) "segments") f).
Proof. intros Hc. exists conv_id, f. split; [done | by right]. Qed.

Lemma original_key conv_id rest :
  is_uuid_text conv_id = true →
  file_key (path_join (path_join STORAGE_DIR conv_id) ("original." +:+ rest)).
Proof. intros Hc. exists conv_id, rest. split; [done | by left]. Qed.

(** The segment loop keeps the disk well formed, however it ends. *)
Lemma save_segments_preserves conv_id audio_format ts (fs : disk) :
  let segments_dir := path_join (path_join STORAGE_DIR conv_id) "segments" in
  disk_ok fs → is_uuid_text conv_id = true →
  disk_ok (save_segments conv_id segments_dir audio_format ts fs).2.
Proof.
  intros sd Hok Hc. revert fs Hok.
  induction ts as [|t ts IH]; intros fs Hok; [done | ].
  simpl. munfold.
  pose proof (write_file_preserves (path_join sd (segment_filename t audio_format))
                (b64decode (audio_b64 t)) fs Hok (segment_key conv_id _ Hc)) as Hok1.
  destruct (write_file _ _ fs) as [[[] | e] fs1]; cbn [snd] in *; [ | done].
  specialize (IH fs1 Hok1).
  by destruct (save_segments _ _ _ ts fs1) as [[ts' | e] fs2].
Qed.

(** When the segment loop runs to its end, every name was free of NUL, the
    loop touched the segment paths only, and a segment whose file name no
    other turn shares holds the decoded bytes of its turn. *)
Lemma save_segments_returned conv_id segments_dir audio_format ts (fs : disk) ts' fs' :
  save_segments conv_id segments_dir audio_format ts fs = (Returned ts', fs') →
  ts' = with_paths conv_id audio_format ts
  ∧ Forall (λ t, nul_free (path_join segments_dir (segment_filename t audio_format))
                 = true) ts
  ∧ (∀ k, Forall (λ t, k ≠ path_join segments_dir (segment_filename t audio_format)) ts →
          fs' !! k = fs !! k)
  ∧ (NoDup (map (λ t, segment_filename t audio_format) ts) →
     Forall (λ t, fs' !! path_join segments_dir (segment_filename t audio_format)
                  = Some (File (b64decode (audio_b64 t)))) ts).
Proof.
  revert fs ts'. induction ts as [|t ts IH]; intros fs ts' Hrun.
  - injection Hrun as <- <-. repeat split; [done | constructor].
  - simpl in Hrun. munfold.
    destruct (write_file (path_join segments_dir (segment_filename t audio_format))
                (b64decode (audio_b64 t)) fs) as [[[] | e] fs1] eqn:Hw; [ | done].
    apply write_file_returned in Hw as [-> Hnul].
    destruct (save_segments conv_id segments_dir audio_format ts _)
      as [[ts1 | e] fs2] eqn:Hrest; [ | done].
    injection Hrun as <- <-.
    destruct (IH _ _ Hrest) as (-> & Hnuls & Hframe & Hread).
    split; [done | ]. split; [by constructor | ]. split.
    + intros k Hk. apply Forall_cons in Hk as [Hk1 Hk].
      rewrite (Hframe k Hk). by apply lookup_insert_ne.
    + intros Hnd. apply NoDup_cons in Hnd as [Hnotin Hnd].
      constructor; [ | by apply Hread].
      rewrite Hframe; [apply lookup_insert_eq | ].
      apply Forall_forall. intros t' Ht' Heq.
      apply Hnotin. apply list_elem_of_fmap. exists t'. split; [ | done].
      unfold path_join in Heq. apply (inj (append segments_dir)) in Heq.
      by apply (inj (append "/")) in Heq.
Qed.

End Blobs.
(** ** Segment file names *)

Lemma chars_app (a b : string) :
  list_ascii_of_string (a +:+ b) = list_ascii_of_string a ++ list_ascii_of_string b.
Proof.
  induction a as [|x a IH]; [done | ]. rewrite sapp_cons. simpl. by rewrite IH.
Qed.

Lemma chars_inj (a b : string) :
  list_ascii_of_string a = list_ascii_of_string b → a = b.
Proof.
  intros Heq. rewrite <- (string_of_list_ascii_of_string a),
    <- (string_of_list_ascii_of_string b). by rewrite Heq.
Qed.

Lemma read_decimal_zeros k s : read_decimal (zeros k +:+ s) = read_decimal s.
Proof.
  unfold read_decimal. induction k as [|k IH]; [done | ].
  simpl zeros. rewrite sapp_cons. simpl.
  destruct (NilEmpty.uint_of_string (zeros k +:+ s)) as [d | ];
    destruct (NilEmpty.uint_of_string s) as [d' | ]; simpl in *; done.
Qed.

Lemma read_decimal_decimal n : read_decimal (decimal n) = Some n.
Proof.
  unfold read_decimal, decimal. rewrite NilEmpty.usu. simpl.
  by rewrite Unsigned.of_to.
Qed.

Lemma read_format_03d z : 0 ≤ z → read_decimal (format_03d z) = Some (Z.to_N z).
Proof.
  intros Hz. unfold format_03d. destruct (Z.ltb_spec z 0); [lia | ].
  unfold zfill. by rewrite read_decimal_zeros, read_decimal_decimal.
Qed.

Lemma format_03d_inj a b : 0 ≤ a → 0 ≤ b → format_03d a = format_03d b → a = b.
Proof.
  intros Ha Hb Heq. pose proof (read_format_03d a Ha) as Hra.
  rewrite Heq, (read_format_03d b Hb) in Hra. injection Hra as Hra. lia.
Qed.

Lemma uint_digits d :
  Forall (λ c, is_digit c = true) (list_ascii_of_string (NilEmpty.string_of_uint d)).
Proof. induction d; simpl; constructor; done. Qed.

Lemma zeros_digits k :
  Forall (λ c, is_digit c = true) (list_ascii_of_string (zeros k)).
Proof. induction k; simpl; constructor; done. Qed.

Lemma format_03d_digits z :
  0 ≤ z → Forall (λ c, is_digit c = true) (list_ascii_of_string (format_03d z)).
Proof.
  intros Hz. unfold format_03d. destruct (Z.ltb_spec z 0); [lia | ].
  unfold zfill. rewrite chars_app. apply Forall_app. split.
  - apply zeros_digits.
  - apply uint_digits.
Qed.

(** What follows the last occurrence of a mark is determined by the whole. *)
Lemma after_last_mark {A} (x : A) (l1 l2 d1 d2 : list A) :
  x ∉ d1 → x ∉ d2 → l1 ++ x :: d1 = l2 ++ x :: d2 → d1 = d2.
Proof.
  intros H1 H2. revert l2. induction l1 as [|a l1 IH]; intros [|b l2] Heq;
    simpl in Heq.
  - by injection Heq.
  - injection Heq as -> ->. destruct H1. apply elem_of_app. right. left.
  - injection Heq as -> <-. destruct H2. apply elem_of_app. right. left.
  - injection Heq as -> Heq. by eapply IH.
Qed.

Section SegmentNames.
Context `{Collaborators}.

(** Two turns of one conversation whose numbers differ get different
    segment files, whatever their speaker labels. *)
Lemma segment_filename_number t t' audio_format :
  0 ≤ number t → 0 ≤ number t' →
  segment_filename t audio_format = segment_filename t' audio_format →
  number t = number t'.
Proof.
  intros Ht Ht' Heq. unfold segment_filename in Heq.
  apply (f_equal list_ascii_of_string) in Heq.
  rewrite !chars_app in Heq. rewrite !(assoc_L (++)) in Heq.
  apply app_inv_tail in Heq. apply app_inv_tail in Heq.
  rewrite <- !(assoc_L (++)) in Heq. simpl in Heq.
  apply after_last_mark in Heq.
  - apply chars_inj in Heq. by apply format_03d_inj.
  - intros Hin. pose proof (format_03d_digits _ Ht) as Hd.
    rewrite Forall_forall in Hd. by apply Hd in Hin.
  - intros Hin. pose proof (format_03d_digits _ Ht') as Hd.
    rewrite Forall_forall in Hd. by apply Hd in Hin.
Qed.

Lemma segment_filenames_NoDup ts audio_format :
  StronglySorted Z.lt (map number ts) → Forall (λ t, 0 ≤ number t) ts →
  NoDup (map (λ t, segment_filename t audio_format) ts).
Proof.
  induction ts as [|t ts IH]; intros Hs Hp; simpl; [constructor | ].
  simpl in Hs. apply StronglySorted_inv in Hs as [Hs Hlt].
  apply Forall_cons in Hp as [Ht Hp].
  constructor; [ | by apply IH].
  intros Hin. apply list_elem_of_fmap in Hin as (t' & Heq & Ht').
  apply segment_filename_number in Heq; [ | done | ].
  - rewrite Forall_forall in Hlt.
    assert (number t < number t'); [ | lia].
    apply Hlt. apply list_elem_of_fmap. by exists t'.
  - rewrite Forall_forall in Hp. by apply Hp.
Qed.

End SegmentNames.

(** ** Persisting a processed upload *)

Lemma save_turns_rows conv_id uuid ts k (d : database) :
  ∃ n, (n ≤ length ts)%nat
    ∧ conversations (save_turns conv_id uuid k ts d).2 = conversations d
    ∧ turns (save_turns conv_id uuid k ts d).2
      = turns d ++ rows_of conv_id uuid k (take n ts)
    ∧ ((save_turns conv_id uuid k ts d).1 = Returned () → n = length ts).
Proof.
  revert k d. induction ts as [|t ts IH]; intros k d.
  - exists 0%nat. simpl. by rewrite app_nil_r.
  - simpl. munfold.
    destruct (audio_path t) as [p | ] eqn:Hp.
    + unfold save_turn. destruct (decide _) as [Hdup | Hfresh].
      * exists 0%nat. simpl. rewrite app_nil_r. repeat split; [lia | done].
      * match goal with |- context [save_turns _ _ _ _ ?d1] =>
          destruct (IH (S k) d1) as (n & Hn & Hc & Ht & Hr) end.
        exists (S n). simpl in *. split; [lia | ]. split; [done | ]. split.
        -- rewrite Ht. rewrite <- (assoc_L (++)). simpl.
           unfold row_of_turn. by rewrite Hp.
        -- intros Hret. by rewrite (Hr Hret).
    + exists 0%nat. simpl. rewrite app_nil_r. repeat split; [lia | done].
Qed.

Lemma rows_of_owner conv_id uuid k ts :
  Forall (λ r, t_conversation_id r = conv_id) (rows_of conv_id uuid k ts).
Proof.
  revert k. induction ts as [|t ts IH]; intros k; simpl; constructor; [done | apply IH].
Qed.

Lemma rows_of_numbers conv_id uuid k ts :
  map t_number (rows_of conv_id uuid k ts) = map number ts.
Proof.
  revert k. induction ts as [|t ts IH]; intros k; simpl; [done | by rewrite IH].
Qed.

Lemma rows_of_bounds conv_id uuid k ts :
  map (λ r, (t_start_ms r, t_end_ms r)) (rows_of conv_id uuid k ts)
  = map (λ t, (start_ms t, end_ms t)) ts.
Proof.
  revert k. induction ts as [|t ts IH]; intros k; simpl; [done | by rewrite IH].
Qed.

Section RecordedPaths.
Context `{Collaborators}.

Lemma rows_of_paths conv_id audio_format uuid k ts :
  Forall (λ r, ∃ f, t_audio_path r = conv_id +:+ "/segments/" +:+ f)
    (rows_of conv_id uuid k (with_paths conv_id audio_format ts)).
Proof.
  revert k. induction ts as [|t ts IH]; intros k; simpl; constructor; [ | apply IH].
  simpl. eauto.
Qed.

Lemma with_paths_take conv_id audio_format n ts :
  take n (with_paths conv_id audio_format ts)
  = with_paths conv_id audio_format (take n ts).
Proof. unfold with_paths. by rewrite fmap_take. Qed.

Lemma with_paths_numbers conv_id audio_format ts :
  map number (with_paths conv_id audio_format ts) = map number ts.
Proof. unfold with_paths. induction ts; simpl; [done | by f_equal]. Qed.

Lemma with_paths_bounds conv_id audio_format ts :
  map (λ t, (start_ms t, end_ms t)) (with_paths conv_id audio_format ts)
  = map (λ t, (start_ms t, end_ms t)) ts.
Proof. unfold with_paths. induction ts; simpl; [done | by f_equal]. Qed.

End RecordedPaths.

Section Persisting.
Context `{Collaborators}.

(** [save_audio_files] keeps the disk well formed, however it ends. *)
Lemma save_audio_files_preserves conv_id audio_bytes audio_format ts (fs : disk) :
  disk_ok fs → is_uuid_text conv_id = true →
  disk_ok (save_audio_files conv_id audio_bytes audio_format ts fs).2.
Proof.
  intros Hok Hc. unfold save_audio_files. munfold.
  pose proof (mkdir_parents_preserves conv_id fs Hok Hc) as Hok1.
  destruct (mkdir_parents _ fs) as [[[] | e] fs1]; cbn [snd] in *; [ | done].
  pose proof (mkdir_preserves (path_join (path_join STORAGE_DIR conv_id) "segments")
                fs1 Hok1 (segments_dir_key conv_id Hc)) as Hok2.
  destruct (mkdir _ fs1) as [[[] | e] fs2]; cbn [snd] in *; [ | done].
  pose proof (write_file_preserves
                (path_join (path_join STORAGE_DIR conv_id)
                   ("original." +:+ audio_format)) audio_bytes fs2 Hok2
                (original_key conv_id audio_format Hc)) as Hok3.
  destruct (write_file _ _ fs2) as [[[] | e] fs3]; cbn [snd] in *; [ | done].
  by apply save_segments_preserves.
Qed.

(** What storing the turns [ts] leaves in the tables: nothing new, or the
    conversation row followed by the rows of the first [n] turns (all of
    them unless an insert failed). *)
Lemma store_results_db up env ts w :
  let r := store_results up env ts w in
  (db r.2 = db w ∧ ∃ e, r.1 = Raised e)
  ∨ ∃ n,
      (n ≤ length ts)%nat
      ∧ (uuid4 env 0%nat ∉ map c_id (conversations (db w)))
      ∧ (get_audio_fingerprint (audio_bytes up)
          ∉ map c_fingerprint (conversations (db w)))
      ∧ conversations (db r.2)
        = conversations (db w) ++ [new_conversation up env ts]
      ∧ turns (db r.2)
        = turns (db w) ++
          rows_of (uuid4 env 0%nat) (uuid4 env) 1
            (with_paths (uuid4 env 0%nat) (file_ext up) (take n ts))
      ∧ (r.1 = Returned (Some (uuid4 env 0%nat)) ∧ n = length ts
         ∨ ∃ e, r.1 = Raised e).
Proof.
  unfold store_results. munfold.
  pose proof (save_audio_files_outcome (uuid4 env 0%nat) (audio_bytes up)
                (file_ext up) ts (files w)) as Hout.
  destruct (save_audio_files _ _ _ ts (files w)) as [[ts' | e] fs'];
    cbn [fst snd db files] in *; [ | left; eauto].
  destruct Hout as [[e He] | Hout]; [done | ]. injection Hout as ->.
  unfold save_conversation. cbn [fst snd db files].
  destruct (decide _) as [Hdup | Hfresh]; cbn [fst snd db files];
    [left; eauto | ].
  assert (uuid4 env 0%nat ∉ map c_id (conversations (db w))) as Hid
    by (intros ?; apply Hfresh; by left).
  assert (get_audio_fingerprint (audio_bytes up)
            ∉ map c_fingerprint (conversations (db w))) as Hfp
    by (intros ?; apply Hfresh; by right).
  match goal with |- context [save_turns ?c ?u ?k ?l ?d1] =>
    pose proof (save_turns_rows c u l k d1) as (n & Hn & Hc & Ht & Hr);
    destruct (save_turns c u k l d1) as [[[] | e] d2] eqn:Hst end;
    cbn [fst snd db files conversations turns] in *;
    right; exists n; rewrite <- with_paths_take;
    unfold with_paths in Hn; rewrite length_fmap in Hn;
    (split; [done | ]); (split; [done | ]); (split; [done | ]);
    (split; [done | ]); (split; [done | ]).
  - left. split; [done | ]. specialize (Hr eq_refl).
    unfold with_paths in Hr. by rewrite length_fmap in Hr.
  - right. eauto.
Qed.

Lemma store_results_disk up env ts w :
  (∀ k, is_uuid_text (uuid4 env k) = true) →
  disk_ok (files w) → disk_ok (files (store_results up env ts w).2).
Proof.
  intros Huuid Hok. unfold store_results. munfold.
  pose proof (save_audio_files_preserves (uuid4 env 0%nat) (audio_bytes up)
                (file_ext up) ts (files w) Hok (Huuid 0%nat)) as Hok1.
  destruct (save_audio_files _ _ _ ts (files w)) as [[ts' | e] fs'];
    cbn [fst snd db files] in *; [ | done].
  destruct (save_conversation _ _ _ _ _ _ _ _ _ _ (db w)) as [[[] | e] d1];
    cbn [fst snd db files]; [ | done].
  destruct (save_turns _ _ _ _ d1) as [[[] | e] d2]; by cbn [fst snd db files].
Qed.

Lemma process_and_save_cases up env w :
  process_and_save up env w = (Returned None, w)
  ∨ ∃ ts, process_audio (answer up) (decoded up) (file_ext up) = Some ts
          ∧ ts ≠ []
          ∧ process_and_save up env w = store_results up env ts w.
Proof.
  unfold process_and_save.
  destruct (process_audio _ _ _) as [[|t0 ts0] | ]; [by left | | by left].
  right. by exists (t0 :: ts0).
Qed.

End Persisting.

(** ** Invariants of the store *)

Lemma filter_all {A} (P : A → Prop) `{∀ x, Decision (P x)} (l : list A) :
  Forall P l → filter P l = l.
Proof.
  induction 1 as [|x l Hx _ IH]; [done | ].
  rewrite filter_cons. destruct (decide (P x)); [by rewrite IH | done].
Qed.

Lemma filter_none {A} (P : A → Prop) `{∀ x, Decision (P x)} (l : list A) :
  Forall (λ x, ¬ P x) l → filter P l = [].
Proof.
  induction 1 as [|x l Hx _ IH]; [done | ].
  rewrite filter_cons. destruct (decide (P x)); [done | exact IH].
Qed.

Lemma sublist_Forall_inv {A} (P : A → Prop) (l1 l2 : list A) :
  l1 `sublist_of` l2 → Forall P l2 → Forall P l1.
Proof.
  induction 1 as [|x l1 l2 _ IH|x l1 l2 _ IH]; intros Hall; [constructor | | ].
  - apply Forall_cons in Hall as [Hx Hall]. constructor; auto.
  - apply Forall_cons in Hall as [_ Hall]. auto.
Qed.

Lemma StronglySorted_sublist {A} (R : relation A) (l1 l2 : list A) :
  l1 `sublist_of` l2 → StronglySorted R l2 → StronglySorted R l1.
Proof.
  induction 1 as [|x l1 l2 Hsub IH|x l1 l2 _ IH]; intros Hs; [constructor | | ].
  - apply StronglySorted_inv in Hs as [Hs Hx].
    constructor; [auto | by eapply sublist_Forall_inv].
  - apply StronglySorted_inv in Hs as [Hs _]. auto.
Qed.

Lemma init_database_ok : db_ok init_database.
Proof.
  split; simpl.
  - constructor.
  - intros r Hr. inversion Hr.
  - intros t Ht. inversion Ht.
  - intros c. constructor.
  - intros t Ht. inversion Ht.
  - intros t Ht. inversion Ht.
Qed.

Lemma touched_ids now_ conv_id (l : list conversation_row) :
  map c_id (map (λ r, if decide (c_id r = conv_id)
                      then set_last_viewed now_ r else r) l) = map c_id l.
Proof.
  induction l as [|r l IH]; [done | ]. simpl. rewrite IH.
  by destruct (decide (c_id r = conv_id)).
Qed.

Lemma touched_fingerprints now_ conv_id (l : list conversation_row) :
  map c_fingerprint (map (λ r, if decide (c_id r = conv_id)
                               then set_last_viewed now_ r else r) l)
  = map c_fingerprint l.
Proof.
  induction l as [|r l IH]; [done | ]. simpl. rewrite IH.
  by destruct (decide (c_id r = conv_id)).
Qed.

Lemma update_last_viewed_ok now_ conv_id d :
  db_ok d → db_ok (update_last_viewed now_ conv_id d).2.
Proof.
  intros [Hfp Hst Hown Hnum Hpos Hpath]. unfold update_last_viewed.
  split; cbn [snd conversations turns]; try done.
  - by rewrite touched_fingerprints.
  - intros r' Hr'. apply list_elem_of_fmap in Hr' as (r & -> & Hr).
    destruct (Hst r Hr) as [Hs Hu].
    by destruct (decide (c_id r = conv_id)).
  - intros t Ht. rewrite touched_ids. by apply Hown.
Qed.

Lemma delete_rows_ok conv_id d : db_ok d → db_ok (delete_rows conv_id d).2.
Proof.
  intros [Hfp Hst Hown Hnum Hpos Hpath]. unfold delete_rows.
  split; cbn [snd conversations turns].
  - eapply sublist_NoDup; [exact Hfp | ]. apply fmap_sublist, sublist_filter.
  - intros r [_ Hr]%list_elem_of_filter. by apply Hst.
  - intros t [Hne Ht]%list_elem_of_filter.
    apply Hown in Ht. apply list_elem_of_fmap in Ht as (r & Heq & Hr).
    apply list_elem_of_fmap. exists r. split; [done | ].
    apply list_elem_of_filter. split; [congruence | done].
  - intros c. unfold turns_of. cbn [turns].
    eapply StronglySorted_sublist; [ | exact (Hnum c)].
    apply fmap_sublist. unfold turns_of. rewrite list_filter_filter.
    rewrite <- (list_filter_filter_l _ (λ r, t_conversation_id r = c)) at 1;
      [apply sublist_filter | by intros r [? ?]].
  - intros t [_ Ht]%list_elem_of_filter. by apply Hpos.
  - intros t [_ Ht]%list_elem_of_filter. by apply Hpath.
Qed.

Section StoreInvariant.
Context `{Collaborators}.

Lemma get_row_ok d : db_ok d → ∀ r, r ∈ conversations d → is_uuid_text (c_id r) = true.
Proof. intros Hok r Hr. by destruct (ok_storage d Hok r Hr). Qed.

Lemma store_results_ok up env ts w :
  (∀ k, is_uuid_text (uuid4 env k) = true) →
  StronglySorted Z.lt (map number ts) → Forall (λ t, 1 ≤ number t) ts →
  world_ok w → world_ok (store_results up env ts w).2.
Proof.
  intros Huuid Hsorted Hpos [Hdb Hfs].
  split; [ | by apply store_results_disk].
  destruct (store_results_db up env ts w)
    as [[-> _] | (n & Hn & Hid & Hfp & Hc & Ht & _)]; [done | ].
  destruct Hdb as [Hfps Hst Hown Hnum Hposd Hpath].
  set (new := rows_of (uuid4 env 0%nat) (uuid4 env) 1
                (with_paths (uuid4 env 0%nat) (file_ext up) (take n ts))) in *.
  assert (Forall (λ r, t_conversation_id r = uuid4 env 0%nat) new) as Hnew
    by apply rows_of_owner.
  assert (Forall (λ r, t_conversation_id r ≠ uuid4 env 0%nat) (turns (db w)))
    as Hold.
  { apply Forall_forall. intros t Hin Heq. apply Hid. rewrite <- Heq. by apply Hown. }
  split.
  - rewrite Hc, fmap_app. apply NoDup_app. split; [done | ]. split.
    + intros x Hx Hx'. simpl in Hx'. apply list_elem_of_singleton in Hx'.
      by subst x.
    + simpl. apply NoDup_singleton.
  - intros r. rewrite Hc. intros [Hr | Hr%list_elem_of_singleton]%elem_of_app;
      [by apply Hst | ]. subst r. simpl. by split.
  - intros t. rewrite Ht, Hc, fmap_app.
    intros [Hin | Hin]%elem_of_app; apply elem_of_app.
    + left. by apply Hown.
    + right. simpl. apply list_elem_of_singleton.
      rewrite Forall_forall in Hnew. by apply Hnew.
  - intros c. unfold turns_of. rewrite Ht, filter_app.
    destruct (decide (c = uuid4 env 0%nat)) as [-> | Hne].
    + rewrite (filter_none _ (turns (db w))); [ | done].
      rewrite filter_all; [ | done]. simpl.
      unfold new. rewrite rows_of_numbers, with_paths_numbers.
      eapply StronglySorted_sublist; [ | exact Hsorted].
      apply fmap_sublist, sublist_take.
    + rewrite (filter_none _ new).
      * rewrite app_nil_r. apply Hnum.
      * eapply Forall_impl; [exact Hnew | ]. simpl. congruence.
  - intros t. rewrite Ht. intros [Hin | Hin]%elem_of_app; [by apply Hposd | ].
    assert (Forall (λ z, 1 ≤ z) (map t_number new)) as Hall.
    { unfold new. rewrite rows_of_numbers, with_paths_numbers.
      apply Forall_fmap. apply Forall_take. exact Hpos. }
    rewrite Forall_forall in Hall. apply Hall.
    apply list_elem_of_fmap. by exists t.
  - intros t. rewrite Ht. intros [Hin | Hin]%elem_of_app; [by apply Hpath | ].
    pose proof (rows_of_paths (uuid4 env 0%nat) (file_ext up) (uuid4 env) 1
                  (take n ts)) as Hall.
    fold new in Hall. rewrite Forall_forall in Hall, Hnew.
    rewrite (Hnew t Hin). by apply Hall.
Qed.

Lemma process_and_save_ok up env w :
  (∀ k, is_uuid_text (uuid4 env k) = true) →
  world_ok w → world_ok (process_and_save up env w).2.
Proof.
  intros Huuid Hok.
  destruct (process_and_save_cases up env w) as [-> | (ts & Hpa & _ & ->)];
    [done | ].
  unfold process_audio in Hpa. destruct (answer up) as [ | us]; [done | ].
  injection Hpa as <-.
  destruct (extract_turns_numbers (decoded up) (file_ext up) 1 us) as [Hs Hb].
  apply store_results_ok; try done.
  eapply Forall_impl; [exact Hb | ]. simpl. intros t. lia.
Qed.

End StoreInvariant.

Section Pages.
Context `{Collaborators}.

Lemma load_and_touch_world env conv_id w :
  (load_and_touch env conv_id w).2 = w
  ∨ (load_and_touch env conv_id w).2
    = {| db := (update_last_viewed (now env 0%nat) conv_id (db w)).2;
         files := files w |}.
Proof.
  unfold load_and_touch, load_conversation_turns. munfold.
  destruct (load_rows _ _); [by right | by left].
Qed.

Lemma load_and_touch_ok env conv_id w :
  world_ok w → world_ok (load_and_touch env conv_id w).2.
Proof.
  intros [Hdb Hfs].
  destruct (load_and_touch_world env conv_id w) as [-> | ->]; [done | ].
  split; [by apply update_last_viewed_ok | done].
Qed.

Lemma then_ret_world {A B} (m : M world A) (b : B) w :
  ((m;; mret b) w).2 = (m w).2.
Proof. munfold. by destruct (m w) as [[a | e] w']. Qed.

Lemma delete_conversation_present conv_id w r :
  world_ok w →
  head (filter (λ r, c_id r = conv_id) (conversations (db w))) = Some r →
  ∃ fs', delete_conversation conv_id w
         = (Returned (), {| db := (delete_rows conv_id (db w)).2; files := fs' |})
    ∧ disk_ok fs'
    ∧ fs' !! path_join STORAGE_DIR conv_id = None.
Proof.
  intros [Hdb Hfs] Hr. unfold delete_conversation. rewrite Hr.
  apply head_filter_Some in Hr as [Hin Hid].
  destruct (ok_storage _ Hdb r Hin) as [-> Hu]. rewrite Hid in *.
  munfold. unfold path_exists.
  destruct (files w !! path_join STORAGE_DIR conv_id) as [n | ] eqn:Hlook.
  - destruct (rmtree_ok conv_id (files w) Hfs Hu) as (fs' & -> & Hok' & Hnone).
    by exists fs'.
  - by exists (files w).
Qed.

Lemma delete_conversation_ok conv_id w :
  world_ok w → world_ok (delete_conversation conv_id w).2.
Proof.
  intros Hok.
  destruct (head (filter (λ r, c_id r = conv_id) (conversations (db w))))
    as [r | ] eqn:Hr.
  - destruct (delete_conversation_present conv_id w r Hok Hr)
      as (fs' & -> & Hfs' & _).
    destruct Hok as [Hdb _]. split; [by apply delete_rows_ok | done].
  - unfold delete_conversation. by rewrite Hr.
Qed.

Lemma process_section_ok up env click ss w :
  (∀ k, is_uuid_text (uuid4 env k) = true) →
  world_ok w → world_ok (process_section up env click ss w).2.
Proof.
  intros Huuid Hok. unfold process_section.
  destruct click as [[] | ]; try done.
  pose proof (process_and_save_ok up env w Huuid Hok) as Hok'.
  munfold. destruct (process_and_save up env w) as [[[c | ] | e] w']; done.
Qed.

Lemma upload_page_ok up env click ss w :
  (∀ k, is_uuid_text (uuid4 env k) = true) →
  world_ok w → world_ok (upload_page up env click ss w).2.
Proof.
  intros Huuid Hok. unfold upload_page.
  destruct (find_existing_conversation _ (db w)) as [[[[[c f] p] tc] du] | ];
    destruct (show_override_warning ss);
    cbn [show_override_warning];
    try (destruct click as [[] | ]); try done;
    try (by apply process_section_ok);
    rewrite then_ret_world; by apply load_and_touch_ok.
Qed.

Lemma history_page_ok act env ss w :
  world_ok w → world_ok (history_page act env ss w).2.
Proof.
  intros Hok. unfold history_page. destruct act as [conv_id | conv_id].
  - pose proof (load_and_touch_ok env conv_id w Hok) as Hok'.
    munfold. destruct (load_and_touch env conv_id w) as [[[] | e] w'];
      [ | done].
    cbn [snd] in *. by destruct (get_conversation_by_id conv_id (db w')).
  - rewrite then_ret_world. by apply delete_conversation_ok.
Qed.

(** Every world the program reaches satisfies the invariants. *)
Lemma reachable_ok w : reachable w → world_ok w.
Proof.
  induction 1 as [ | a env ss w _ IH Huuid].
  - split; [apply init_database_ok | apply init_disk_ok].
  - destruct a as [up click | act]; simpl.
    + by apply upload_page_ok.
    + by apply history_page_ok.
Qed.

End Pages.

(** ** Loading a conversation *)

#[local] Instance number_le_trans : Transitive number_le.
Proof. unfold number_le. intros x y z. lia. Qed.

#[local] Instance number_le_total : Total number_le.
Proof. unfold number_le. intros x y. lia. Qed.

Lemma strictly_sorted_inj {A} (f : A → Z) (l : list A) x y :
  StronglySorted Z.lt (map f l) → x ∈ l → y ∈ l → f x = f y → x = y.
Proof.
  induction l as [|a l IH]; intros Hs Hx Hy Heq; [inversion Hx | ].
  simpl in Hs. apply StronglySorted_inv in Hs as [Hs Hlt].
  rewrite Forall_forall in Hlt.
  assert (∀ z, z ∈ l → f a < f z) as Hlt'.
  { intros z Hz. apply Hlt. apply list_elem_of_fmap. by exists z. }
  apply elem_of_cons in Hx as [-> | Hx]; apply elem_of_cons in Hy as [-> | Hy].
  - done.
  - specialize (Hlt' y Hy). lia.
  - specialize (Hlt' x Hx). lia.
  - by apply IH.
Qed.

(** [ORDER BY number] leaves rows alone that are stored in increasing
    order of their numbers. *)
Lemma merge_sort_increasing (l : list turn_row) :
  StronglySorted Z.lt (map t_number l) → merge_sort number_le l = l.
Proof.
  intros Hs. apply (StronglySorted_unique_strong number_le).
  - intros x1 x2 Hx1 Hx2 H12 H21.
    rewrite merge_sort_Permutation in Hx1.
    apply (strictly_sorted_inj t_number l); try done.
    unfold number_le in *. lia.
  - apply StronglySorted_merge_sort; apply _.
  - clear -Hs. induction l as [|a l IH]; [constructor | ].
    simpl in Hs. apply StronglySorted_inv in Hs as [Hs Hlt].
    constructor; [by apply IH | ].
    rewrite Forall_fmap in Hlt. eapply Forall_impl; [exact Hlt | ].
    simpl. unfold number_le. intros x. lia.
  - apply merge_sort_Permutation.
Qed.

Lemma select_turns_stored conv_id d :
  db_ok d → select_turns conv_id d = turns_of conv_id d.
Proof.
  intros Hok. unfold select_turns. apply merge_sort_increasing.
  apply (ok_numbers d Hok).
Qed.

Section Loading.
Context `{Collaborators}.

Lemma load_rows_spec (fs : disk) rows :
  Forall (λ row, fs !! path_join STORAGE_DIR (t_audio_path row) ≠ Some Dir) rows →
  load_rows fs rows = Returned (omap (read_turn fs) rows).
Proof.
  induction 1 as [|row rows Hrow _ IH]; [done | ].
  simpl. unfold read_turn at 1.
  destruct (fs !! path_join STORAGE_DIR (t_audio_path row)) as [[b | ] | ];
    [ | done | ]; by rewrite IH.
Qed.

Lemma read_turn_Some (fs : disk) row l :
  read_turn fs row = Some l ↔
  ∃ b, fs !! path_join STORAGE_DIR (t_audio_path row) = Some (File b)
       ∧ l = loaded_turn_of row b.
Proof.
  unfold read_turn.
  destruct (fs !! path_join STORAGE_DIR (t_audio_path row)) as [[b | ] | ].
  - split; [intros [= <-]; eauto | intros (b' & [= <-] & ->); done].
  - split; [done | intros (b' & ? & _); done].
  - split; [done | intros (b' & ? & _); done].
Qed.

Lemma read_turn_number (fs : disk) row l :
  read_turn fs row = Some l → l_number l = t_number row.
Proof. intros (b & _ & ->)%read_turn_Some. done. Qed.

Lemma loaded_numbers_sublist (fs : disk) rows :
  map l_number (omap (read_turn fs) rows) `sublist_of` map t_number rows.
Proof.
  induction rows as [|row rows IH]; [constructor | ].
  simpl. destruct (read_turn fs row) as [l | ] eqn:Hl; simpl.
  - rewrite (read_turn_number _ _ _ Hl). by constructor.
  - by constructor.
Qed.

(** The segment path of a stored row is a place for files. *)
Lemma stored_path_is_file_key d row :
  db_ok d → row ∈ turns d →
  file_key (path_join STORAGE_DIR (t_audio_path row)).
Proof.
  intros Hok Hrow.
  destruct (ok_paths d Hok row Hrow) as [f Hf].
  pose proof (ok_owner d Hok row Hrow) as Hown.
  apply list_elem_of_fmap in Hown as (r & Heq & Hr).
  destruct (ok_storage d Hok r Hr) as [_ Hu].
  exists (t_conversation_id row), f. split; [congruence | ]. right.
  rewrite Hf. unfold path_join. by rewrite !sapp_assoc.
Qed.

Lemma stored_paths_no_dir w conv_id :
  world_ok w →
  Forall (λ row, files w !! path_join STORAGE_DIR (t_audio_path row) ≠ Some Dir)
    (select_turns conv_id (db w)).
Proof.
  intros [Hdb Hfs]. apply Forall_forall. intros row Hrow Hdir.
  unfold select_turns in Hrow. rewrite merge_sort_Permutation in Hrow.
  apply list_elem_of_filter in Hrow as [_ Hrow].
  apply (dir_file_disjoint (path_join STORAGE_DIR (t_audio_path row))).
  - exact (ok_keys _ Hfs _ _ Hdir).
  - by eapply stored_path_is_file_key.
Qed.

Lemma load_conversation_turns_ok w conv_id :
  world_ok w →
  load_conversation_turns conv_id w
  = (Returned (omap (read_turn (files w)) (turns_of conv_id (db w))), w).
Proof.
  intros Hok. unfold load_conversation_turns.
  rewrite load_rows_spec by (by apply stored_paths_no_dir).
  destruct Hok as [Hdb _]. by rewrite select_turns_stored.
Qed.

End Loading.

(** ** From processing to loading *)

Section RoundTrip.
Context `{Collaborators}.

Lemma extract_turns_positions audio audio_format idx us :
  map number (extract_turns audio audio_format idx us)
  = map fst (filter (λ p, survives audio p.2) (enumerate idx us)).
Proof.
  revert idx. induction us as [|u us IH]; intros idx; [done | ].
  simpl. rewrite filter_cons. unfold survives at 1, clamp at 1 2. simpl.
  destruct (Z.leb_spec (Z.min (audio_len audio) (u_end u)) (Z.max 0 (u_start u)));
    destruct (decide _); try lia; simpl; by rewrite IH.
Qed.

Lemma extract_turns_encoded audio audio_format idx us :
  Forall (λ t, audio_b64 t
               = b64encode (audio_export
                              (audio_slice audio (start_ms t) (end_ms t))
                              audio_format))
    (extract_turns audio audio_format idx us).
Proof.
  revert idx. induction us as [|u us IH]; intros idx; simpl; [constructor | ].
  destruct (_ <=? _); [apply IH | constructor; [done | apply IH]].
Qed.

Lemma recorded_path_on_disk conv_id audio_format t :
  path_join STORAGE_DIR (recorded_path conv_id audio_format t)
  = path_join (path_join (path_join STORAGE_DIR conv_id) "segments")
      (segment_filename t audio_format).
Proof. unfold recorded_path, path_join. by rewrite !sapp_assoc. Qed.


(** When [save_audio_files] runs to its end it leaves the directory of the
    conversation and, in it, the original upload; no segment name holds a
    NUL; and every turn whose file name no other turn shares finds its
    decoded bytes under the path recorded for it. *)
Lemma save_audio_files_returned conv_id audio_bytes audio_format ts (fs : disk)
    ts' fs' :
  save_audio_files conv_id audio_bytes audio_format ts fs = (Returned ts', fs') →
  ts' = with_paths conv_id audio_format ts
  ∧ fs' !! path_join STORAGE_DIR conv_id = Some Dir
  ∧ fs' !! path_join (path_join STORAGE_DIR conv_id) ("original." +:+ audio_format)
    = Some (File audio_bytes)
  ∧ Forall (λ t, nul_free (segment_filename t audio_format) = true) ts
  ∧ (NoDup (map (λ t, segment_filename t audio_format) ts) →
     Forall (λ t, fs' !! path_join STORAGE_DIR (recorded_path conv_id audio_format t)
                  = Some (File (b64decode (audio_b64 t)))) ts).
Proof.
  unfold save_audio_files. munfold. intros Hrun.
  set (cd := path_join STORAGE_DIR conv_id) in *.
  set (sd := path_join cd "segments") in *.
  destruct (mkdir_parents cd fs) as [[[] | e] fs1] eqn:Hm1; [ | done].
  apply mkdir_parents_returned in Hm1.
  pose proof (mkdir_frame sd fs1 cd) as Hf2.
  destruct (mkdir sd fs1) as [[[] | e] fs2]; [ | done]. cbn [snd] in Hf2.
  destruct (write_file (path_join cd ("original." +:+ audio_format)) audio_bytes fs2)
    as [[[] | e] fs3] eqn:Hw; [ | done].
  apply write_file_returned in Hw as [-> _].
  apply save_segments_returned in Hrun as (-> & Hnul & Hframe & Hread).
  split; [done | ]. split; [ | split; [ | split]].
  - rewrite Hframe.
    + rewrite lookup_insert_ne.
      * rewrite Hf2; [done | ]. intros Heq. apply (f_equal String.length) in Heq.
        unfold sd, path_join in Heq. rewrite !sapp_length in Heq. simpl in Heq. lia.
      * intros Heq. apply (f_equal String.length) in Heq.
        unfold path_join in Heq. rewrite !sapp_length in Heq. simpl in Heq. lia.
    + apply Forall_forall. intros t _.
      apply not_inside_not_child, directory_not_inside_segments.
  - rewrite Hframe; [apply lookup_insert_eq | ].
    apply Forall_forall. intros t _.
    apply not_inside_not_child, original_not_inside_segments.
  - eapply Forall_impl; [exact Hnul | ]. simpl. intros t Ht.
    unfold path_join in Ht. rewrite !nul_free_app in Ht.
    by apply andb_prop in Ht as [_ [_ Ht]%andb_prop].
  - intros Hnd. specialize (Hread Hnd).
    eapply Forall_impl; [exact Hread | ]. simpl.
    intros t Ht. by rewrite recorded_path_on_disk.
Qed.

Lemma store_results_files up env ts w :
  files (store_results up env ts w).2
  = (save_audio_files (uuid4 env 0%nat) (audio_bytes up) (file_ext up) ts
       (files w)).2.
Proof.
  unfold store_results. munfold.
  destruct (save_audio_files _ _ _ ts (files w)) as [[ts' | e] fs'];
    cbn [fst snd db files]; [ | done].
  destruct (save_conversation _ _ _ _ _ _ _ _ _ _ (db w)) as [[[] | e] d1];
    cbn [fst snd db files]; [ | done].
  destruct (save_turns _ _ _ _ d1) as [[[] | e] d2]; by cbn [fst snd db files].
Qed.

(** Results are stored only after the files were written. *)
Lemma store_results_saved up env ts w created w' :
  store_results up env ts w = (Returned created, w') →
  ∃ ts', save_audio_files (uuid4 env 0%nat) (audio_bytes up) (file_ext up) ts
           (files w) = (Returned ts', files w').
Proof.
  intros Hrun. pose proof (store_results_files up env ts w) as Hfiles.
  rewrite Hrun in Hfiles. cbn [snd] in Hfiles.
  unfold store_results in Hrun. munfold.
  destruct (save_audio_files _ _ _ ts (files w)) as [[ts' | e] fs'];
    cbn [fst snd db files] in *; [ | done].
  exists ts'. by rewrite Hfiles.
Qed.

Lemma read_stored_rows conv_id audio_format uuid k ts (fs : disk) :
  Forall (λ t, fs !! path_join STORAGE_DIR (recorded_path conv_id audio_format t)
               = Some (File (b64decode (audio_b64 t)))) ts →
  Forall (λ t, ∃ b, audio_b64 t = b64encode b) ts →
  omap (read_turn fs) (rows_of conv_id uuid k (with_paths conv_id audio_format ts))
  = map loaded_of_turn ts.
Proof.
  revert k. induction ts as [|t ts IH]; intros k Hfs Henc; [done | ].
  apply Forall_cons in Hfs as [Ht Hfs]. apply Forall_cons in Henc as [[b Hb] Henc].
  simpl. unfold read_turn at 1. simpl. rewrite Ht, (IH _ Hfs Henc).
  unfold loaded_turn_of, loaded_of_turn. simpl.
  by rewrite Hb, b64decode_b64encode.
Qed.

(** Loading a conversation right after it was stored gives back its
    turns, one for one, with the numbers and the audio they were stored
    with. *)
Lemma store_then_load up env ts w conv_id w' :
  world_ok w → (∀ k, is_uuid_text (uuid4 env k) = true) →
  StronglySorted Z.lt (map number ts) → Forall (λ t, 1 ≤ number t) ts →
  Forall (λ t, ∃ b, audio_b64 t = b64encode b) ts →
  store_results up env ts w = (Returned (Some conv_id), w') →
  load_conversation_turns conv_id w' = (Returned (map loaded_of_turn ts), w').
Proof.
  intros Hok Huuid Hs Hp Henc Hstore.
  pose proof (store_results_ok up env ts w Huuid Hs Hp Hok) as Hok'.
  pose proof (store_results_db up env ts w) as Hdb.
  destruct (store_results_saved up env ts w _ _ Hstore) as [ts' Hsaved].
  rewrite Hstore in Hok', Hdb. cbn [fst snd] in *.
  destruct Hdb as [[_ [e He]] | (n & Hn & Hid & Hfp & Hc & Ht & Hret)];
    [done | ].
  destruct Hret as [[Hret ->] | [e He]]; [ | done].
  injection Hret as ->. rewrite take_ge in Ht by done.
  rewrite load_conversation_turns_ok by done. f_equal. f_equal.
  unfold turns_of. rewrite Ht, filter_app.
  rewrite filter_none, filter_all, app_nil_l.
  - apply read_stored_rows; [ | done].
    apply save_audio_files_returned in Hsaved as (_ & _ & _ & _ & Hread).
    apply Hread. apply segment_filenames_NoDup; [done | ].
    eapply Forall_impl; [exact Hp | ]. simpl. intros t. lia.
  - apply rows_of_owner.
  - apply Forall_forall. intros t Hin Heq. apply Hid. rewrite <- Heq.
    destruct Hok as [Hdbok _]. by apply (ok_owner _ Hdbok).
Qed.

End RoundTrip.
(** * The specification, claim by claim *)

Lemma sample_env_uuid k : is_uuid_text (uuid4 sample_env k) = true.
Proof. do 3 (destruct k as [|k]; [reflexivity | ]). reflexivity. Qed.

Lemma gap_world_reachable : @reachable raw_collaborators gap_world.
Proof. apply reachable_run; [apply reachable_init | apply sample_env_uuid]. Qed.

Section Claims.
Context `{Collaborators}.

Lemma extract_turns_filter audio audio_format idx us :
  extract_turns audio audio_format idx us
  = map (λ p, turn_of audio audio_format p.1 p.2)
      (filter (λ p, survives audio p.2) (enumerate idx us)).
Proof.
  revert idx. induction us as [|u us IH]; intros idx; [done | ].
  simpl. rewrite filter_cons. unfold survives at 1, clamp at 1 2. simpl.
  destruct (Z.leb_spec (Z.min (audio_len audio) (u_end u)) (Z.max 0 (u_start u)));
    destruct (decide _); try lia; simpl; by rewrite IH.
Qed.

Lemma enumerate_snd {A} idx (us : list A) : map snd (enumerate idx us) = us.
Proof.
  revert idx. induction us as [|u us IH]; intros idx; simpl; [done | by rewrite IH].
Qed.

(** C4. Every utterance is clamped to [max(0, start)] and
    [min(len(audio), end)]; those whose clamped end does not exceed the
    clamped start are left out and the others kept, without an error; and
    every turn row a press on the process button adds lies within
    [0 <= start_ms < end_ms <= len(audio)]. *)
Theorem persisted_segment_bounds up env w us :
  answer up = TranscriptCompleted us →
  ∃ ts, process_audio (answer up) (decoded up) (file_ext up) = Some ts
    ∧ map (λ t, (start_ms t, end_ms t)) ts
      = filter (λ p, p.1 < p.2) (map (clamp (decoded up)) us)
    ∧ ∀ row, row ∈ turns (db (process_and_save up env w).2) →
        row ∈ turns (db w)
        ∨ ((t_start_ms row, t_end_ms row) ∈ map (clamp (decoded up)) us
           ∧ 0 ≤ t_start_ms row < t_end_ms row
           ∧ t_end_ms row ≤ audio_len (decoded up)).
Proof.
  intros Hans. exists (extract_turns (decoded up) (file_ext up) 1 us).
  split; [by rewrite Hans | ]. split; [apply extract_turns_clamped | ].
  intros row Hrow.
  destruct (process_and_save_cases up env w) as [Heq | (ts & Hpa & _ & Heq)];
    rewrite Heq in Hrow; [by left | ].
  rewrite Hans in Hpa. injection Hpa as <-.
  destruct (store_results_db up env (extract_turns (decoded up) (file_ext up) 1 us) w)
    as [[Hdb _] | (n & _ & _ & _ & _ & Ht & _)].
  { left. by rewrite <- Hdb. }
  rewrite Ht in Hrow. apply elem_of_app in Hrow as [Hrow | Hrow]; [by left | ].
  right.
  assert ((t_start_ms row, t_end_ms row)
          ∈ map (λ t, (start_ms t, end_ms t))
              (extract_turns (decoded up) (file_ext up) 1 us)) as Hin.
  { apply (list_elem_of_fmap_2 (λ r, (t_start_ms r, t_end_ms r))) in Hrow.
    rewrite rows_of_bounds, with_paths_bounds in Hrow.
    apply list_elem_of_fmap in Hrow as (t & Heqt & Hin).
    apply list_elem_of_fmap. exists t. split; [done | ].
    eapply elem_of_sublist; [exact Hin | apply sublist_take]. }
  split.
  - rewrite extract_turns_clamped in Hin.
    by apply list_elem_of_filter in Hin as [_ Hin].
  - apply list_elem_of_fmap in Hin as (t & [= -> ->] & Hin).
    pose proof (extract_turns_bounds (decoded up) (file_ext up) 1 us) as Hb.
    rewrite Forall_forall in Hb. specialize (Hb t Hin). lia.
Qed.

Lemma enumerate_filter_snd (P : utterance → Prop) `{∀ u, Decision (P u)}
    idx (us : list utterance) :
  map snd (filter (λ p, P p.2) (enumerate idx us)) = filter P us.
Proof.
  revert idx. induction us as [|u us IH]; intros idx; [done | ].
  simpl. rewrite !filter_cons. simpl.
  destruct (decide (P u)); simpl; by rewrite IH.
Qed.

Lemma last_cons_is_Some {A} (x : A) (l : list A) : ∃ y, last (x :: l) = Some y.
Proof.
  revert x. induction l as [|a l IH]; intros x; [by exists x | ].
  rewrite last_cons_cons. apply IH.
Qed.

Lemma rows_of_last conv_id uuid k ts row :
  last (rows_of conv_id uuid k ts) = Some row →
  ∃ t turn_id, last ts = Some t ∧ row = row_of_turn turn_id conv_id t.
Proof.
  revert k. induction ts as [|t ts IH]; intros k; [done | ].
  destruct ts as [|t' ts].
  - simpl. intros [= <-]. eauto.
  - change (rows_of conv_id uuid k (t :: t' :: ts))
      with (row_of_turn (uuid k) conv_id t :: rows_of conv_id uuid (S k) (t' :: ts)).
    change (rows_of conv_id uuid (S k) (t' :: ts))
      with (row_of_turn (uuid (S k)) conv_id t'
            :: rows_of conv_id uuid (S (S k)) ts) at 1.
    rewrite !last_cons_cons.
    change (row_of_turn (uuid (S k)) conv_id t'
            :: rows_of conv_id uuid (S (S k)) ts)
      with (rows_of conv_id uuid (S k) (t' :: ts)).
    apply IH.
Qed.

(** C5, as the code has it. The duration stored with a new conversation
    is the end, in seconds, that the collaborator reported for the last
    surviving utterance; the last turn row stores that end clamped to the
    length of the audio, so the two agree only when the reported end lies
    within the audio. When no utterance survives nothing is stored. *)
Theorem stored_duration_is_reported_end up env w us :
  answer up = TranscriptCompleted us →
  match last (filter (survives (decoded up)) us) with
  | None => process_and_save up env w = (Returned None, w)
  | Some u =>
      ∀ conv_id w',
        process_and_save up env w = (Returned (Some conv_id), w') →
        ∃ row trow,
          last (conversations (db w')) = Some row
          ∧ c_id row = conv_id
          ∧ c_duration row = u_end u # 1000
          ∧ last (turns (db w')) = Some trow
          ∧ t_conversation_id trow = conv_id
          ∧ t_end_ms trow = Z.min (audio_len (decoded up)) (u_end u)
  end.
Proof.
  intros Hans.
  set (fe := filter (λ p, survives (decoded up) p.2) (enumerate 1 us)).
  assert (process_audio (answer up) (decoded up) (file_ext up)
          = Some (map (λ p, turn_of (decoded up) (file_ext up) p.1 p.2) fe))
    as Hpa by (by rewrite Hans; simpl; rewrite extract_turns_filter).
  rewrite <- (enumerate_filter_snd (survives (decoded up)) 1 us).
  fold fe. rewrite fmap_last.
  destruct (last fe) as [[idx u] | ] eqn:Hlast; simpl.
  - intros conv_id w' Hrun.
    set (ts := map (λ p, turn_of (decoded up) (file_ext up) p.1 p.2) fe) in *.
    assert (last ts = Some (turn_of (decoded up) (file_ext up) idx u)) as Hl
      by (unfold ts; by rewrite fmap_last, Hlast).
    destruct (process_and_save_cases up env w) as [Heq | (ts' & Hpa' & _ & Heq)];
      [congruence | ].
    rewrite Hpa in Hpa'. injection Hpa' as <-. rewrite Hrun in Heq.
    pose proof (store_results_db up env ts w) as Hdb. rewrite <- Heq in Hdb.
    cbn [fst snd] in Hdb.
    destruct Hdb as [[_ [e He]] | (n & Hn & _ & _ & Hc & Ht & Hret)]; [done | ].
    destruct Hret as [[Hret ->] | [e He]]; [ | done].
    injection Hret as ->. rewrite take_ge in Ht by done.
    exists (new_conversation up env ts).
    assert (∃ trow, last (rows_of (uuid4 env 0%nat) (uuid4 env) 1
                            (with_paths (uuid4 env 0%nat) (file_ext up) ts))
                    = Some trow) as [trow Htrow].
    { destruct ts as [|t ts0]; [done | ]. apply last_cons_is_Some. }
    exists trow. rewrite Hc, Ht, last_snoc, last_app, Htrow.
    split; [done | ]. split; [done | ]. split.
    { unfold new_conversation. simpl. by rewrite Hl. }
    split; [done | ].
    apply rows_of_last in Htrow as (t & turn_id & Ht' & ->).
    unfold with_paths in Ht'. rewrite fmap_last, Hl in Ht'.
    injection Ht' as <-. done.
  - unfold process_and_save. rewrite Hpa.
    apply last_None in Hlast. by rewrite Hlast.
Qed.


Lemma row_present conv_id (d : database) :
  conv_id ∈ map c_id (conversations d) →
  ∃ r, head (filter (λ r, c_id r = conv_id) (conversations d)) = Some r.
Proof.
  intros (r & Heq & Hr)%list_elem_of_fmap.
  destruct (head (filter (λ r, c_id r = conv_id) (conversations d))) as [r' | ] eqn:Hh;
    [eauto | ].
  rewrite head_filter_None in Hh. by destruct (Hh r Hr).
Qed.

(** C6. In every reachable world, deleting a stored conversation returns
    normally, and afterwards the conversation is not found, it has no
    turns to load, and its directory is gone from the disk. *)
Theorem deletion_is_total conv_id w :
  reachable w →
  conv_id ∈ map c_id (conversations (db w)) →
  ∃ w', delete_conversation conv_id w = (Returned (), w')
    ∧ get_conversation_by_id conv_id (db w') = None
    ∧ load_conversation_turns conv_id w' = (Returned [], w')
    ∧ path_exists (path_join STORAGE_DIR conv_id) (files w') = false.
Proof.
  intros Hreach Hin. pose proof (reachable_ok w Hreach) as Hok.
  destruct (row_present conv_id (db w) Hin) as [r Hr].
  destruct (delete_conversation_present conv_id w r Hok Hr)
    as (fs' & Hdel & _ & Hgone).
  eexists. split; [exact Hdel | ]. cbn [db files]. split; [ | split].
  - unfold get_conversation_by_id, delete_rows. cbn [snd conversations].
    rewrite (proj2 (head_filter_None _ _)); [done | ].
    by intros x [Hne _]%list_elem_of_filter.
  - unfold load_conversation_turns, select_turns, delete_rows.
    cbn [db files snd turns].
    rewrite filter_none; [done | ].
    apply Forall_forall. by intros x [Hne _]%list_elem_of_filter.
  - unfold path_exists. by rewrite Hgone.
Qed.

(** C10. Provided no recorded segment path is a directory,
    [load_conversation_turns] returns normally and leaves the world as it
    was; what it returns are the conversation's rows taken in ascending
    order of [number], those whose segment file is missing left out, so
    that the result holds one turn for each row whose file exists and can
    be shorter than the rows stored. *)
Theorem load_skips_missing_files conv_id w :
  (∀ row, row ∈ turns (db w) → t_conversation_id row = conv_id →
          files w !! path_join STORAGE_DIR (t_audio_path row) ≠ Some Dir) →
  ∃ rows loaded,
    load_conversation_turns conv_id w = (Returned loaded, w)
    ∧ rows ≡ₚ turns_of conv_id (db w)
    ∧ StronglySorted number_le rows
    ∧ loaded = omap (read_turn (files w)) rows
    ∧ StronglySorted Z.le (map l_number loaded)
    ∧ (length loaded ≤ length (turns_of conv_id (db w)))%nat
    ∧ ∀ l, l ∈ loaded ↔
        ∃ row b, row ∈ turns (db w) ∧ t_conversation_id row = conv_id
          ∧ files w !! path_join STORAGE_DIR (t_audio_path row) = Some (File b)
          ∧ l = loaded_turn_of row b.
Proof.
  intros Hnodir. exists (select_turns conv_id (db w)). eexists.
  assert (select_turns conv_id (db w) ≡ₚ turns_of conv_id (db w)) as Hperm
    by apply merge_sort_Permutation.
  assert (StronglySorted number_le (select_turns conv_id (db w))) as Hsorted
    by (apply StronglySorted_merge_sort; apply _).
  split; [ | split; [exact Hperm | split; [exact Hsorted | split; [done | ]]]].
  - unfold load_conversation_turns. rewrite load_rows_spec; [done | ].
    apply Forall_forall. intros row Hrow. rewrite Hperm in Hrow.
    apply list_elem_of_filter in Hrow as [Hc Hrow]. by apply Hnodir.
  - split; [ | split].
    + eapply StronglySorted_sublist; [apply loaded_numbers_sublist | ].
      eapply StronglySorted_fmap; [ | exact Hsorted]. done.
    + rewrite <- Hperm. rewrite <- (length_fmap l_number).
      rewrite <- (length_fmap t_number (select_turns conv_id (db w))).
      apply sublist_length, loaded_numbers_sublist.
    + intros l. rewrite list_elem_of_omap. split.
      * intros (row & Hrow & (b & Hb & ->)%read_turn_Some).
        rewrite Hperm in Hrow. apply list_elem_of_filter in Hrow as [Hc Hrow].
        by exists row, b.
      * intros (row & b & Hrow & Hc & Hb & ->). exists row. split.
        -- rewrite Hperm. by apply list_elem_of_filter.
        -- apply read_turn_Some. eauto.
Qed.

Lemma filter_unique {A B} `{EqDecision B} (f : A → B) (l : list A) r :
  NoDup (map f l) → r ∈ l → filter (λ x, f x = f r) l = [r].
Proof.
  induction l as [|a l IH]; intros Hnd Hr; [inversion Hr | ].
  simpl in Hnd. apply NoDup_cons in Hnd as [Ha Hnd]. rewrite filter_cons.
  apply elem_of_cons in Hr as [-> | Hr].
  - destruct (decide (f a = f a)); [ | done]. f_equal.
    apply filter_none, Forall_forall. intros x Hx Heq.
    apply Ha. rewrite <- Heq. by apply list_elem_of_fmap_2.
  - destruct (decide (f a = f r)) as [Heq | _]; [ | by apply IH].
    destruct Ha. rewrite Heq. by apply list_elem_of_fmap_2.
Qed.

Lemma find_existing_known d r :
  NoDup (map c_fingerprint (conversations d)) → r ∈ conversations d →
  find_existing_conversation (c_fingerprint r) d
  = Some (c_id r, c_filename r, c_processed_at r, c_turns r, c_duration r).
Proof.
  intros Hnd Hr. unfold find_existing_conversation.
  by rewrite (filter_unique c_fingerprint _ r Hnd Hr).
Qed.

Lemma touched_filter now_ conv_id fp (l : list conversation_row) :
  filter (λ r, c_fingerprint r = fp)
    (map (λ r, if decide (c_id r = conv_id) then set_last_viewed now_ r else r) l)
  = map (λ r, if decide (c_id r = conv_id) then set_last_viewed now_ r else r)
      (filter (λ r, c_fingerprint r = fp) l).
Proof.
  induction l as [|r l IH]; [done | ]. simpl. rewrite !filter_cons, IH.
  destruct (decide (c_id r = conv_id)) as [Hid | Hid]; simpl;
    repeat case_decide; simpl in *; try done;
    destruct (decide (c_id r = conv_id)); done.
Qed.

Lemma then_ret_outcome {A B} (m : M world A) (b b' : B) w :
  ((m;; mret b) w).1 = Returned b' → b' = b.
Proof.
  munfold. destruct (m w) as [[a | e] w1]; simpl; [ | done]. by intros [= ->].
Qed.

(** An upload whose fingerprint is stored leaves the conversations as
    they are, but for [last_viewed] of the stored one, and opens no other
    conversation than that. *)
Lemma upload_page_known up env click ss w r :
  db_ok (db w) → r ∈ conversations (db w) →
  c_fingerprint r = get_audio_fingerprint (audio_bytes up) →
  let res := upload_page up env click ss w in
  (conversations (db res.2) = conversations (db w)
   ∨ conversations (db res.2)
     = map (λ r', if decide (c_id r' = c_id r)
                  then set_last_viewed (now env 0%nat) r' else r')
         (conversations (db w)))
  ∧ ∀ ss', res.1 = Returned ss' →
      current_conversation_id ss' = current_conversation_id ss
      ∨ current_conversation_id ss' = Some (c_id r).
Proof.
  intros Hdb Hr Hfp.
  assert (∀ click' s0, let res := process_section up env click' s0 w in
            conversations (db res.2) = conversations (db w)
            ∧ ∀ ss', res.1 = Returned ss' →
                current_conversation_id ss' = current_conversation_id s0)
    as Hsection.
  { intros click' s0. unfold process_section.
    destruct click' as [[] | ]; try (by split; [ | intros ss' [= <-]]).
    munfold.
    destruct (process_and_save_cases up env w) as [-> | (ts & _ & _ & ->)];
      [by split; [ | intros ss' [= <-]] | ].
    destruct (store_results_db up env ts w)
      as [[Hsame [e He]] | (_ & _ & _ & Hnew & _)].
    - destruct (store_results up env ts w) as [[o | e'] w1];
        simpl in *; [done | ]. split; [by rewrite Hsame | done].
    - destruct Hnew. rewrite <- Hfp. by apply list_elem_of_fmap_2. }
  assert (∀ warning s0,
            let res := (load_and_touch env (c_id r);;
                        mret (open_conversation (c_id r) warning s0)) w in
            (conversations (db res.2) = conversations (db w)
             ∨ conversations (db res.2)
               = map (λ r', if decide (c_id r' = c_id r)
                            then set_last_viewed (now env 0%nat) r' else r')
                   (conversations (db w)))
            ∧ ∀ ss', res.1 = Returned ss' →
                current_conversation_id ss' = Some (c_id r)) as Hload.
  { intros warning s0 res. unfold res. split.
    - rewrite then_ret_world.
      destruct (load_and_touch_world env (c_id r) w) as [-> | ->];
        [by left | by right].
    - intros ss' Hss'. by apply then_ret_outcome in Hss' as ->. }
  unfold upload_page. cbn zeta. rewrite <- Hfp.
  rewrite (find_existing_known _ _ (ok_fingerprints _ Hdb) Hr). rewrite Hfp.
  cbn [show_override_warning].
  destruct (show_override_warning ss).
  - destruct click as [[] | ];
      try (match goal with
           | |- context [process_section up env ?c ?s0 w] =>
               destruct (Hsection c s0) as [Hc Hs]
           end;
           split; [by left | intros ss' Hss'; left; by apply Hs in Hss']; fail).
    match goal with
    | |- context [open_conversation (c_id r) ?wn ?s0] =>
        destruct (Hload wn s0) as [Hc Hs]
    end.
    split; [done | intros ss' Hss'; right; eauto].
  - destruct click as [[] | ];
      try (split; [by left | intros ss' [= <-]; by left]; fail).
    + match goal with
      | |- context [open_conversation (c_id r) ?wn ?s0] =>
          destruct (Hload wn s0) as [Hc Hs]
      end.
      split; [done | intros ss' Hss'; right; eauto].
    + split; [by left | intros ss' [= <-]; by right].
Qed.

(** C2. Once a conversation with the fingerprint of some bytes is stored,
    a run of the upload page with these bytes, under whatever file name
    and whichever button, leaves exactly that conversation under the
    fingerprint; [find_existing_conversation] returns its id before and
    after the run, and the run opens no conversation but that one. *)
Theorem second_upload_resolves_to_first up env click ss w r :
  reachable w →
  r ∈ conversations (db w) →
  c_fingerprint r = get_audio_fingerprint (audio_bytes up) →
  let fingerprint := get_audio_fingerprint (audio_bytes up) in
  let res := upload_page up env click ss w in
  map c_id (filter (λ r', c_fingerprint r' = fingerprint)
              (conversations (db res.2))) = [c_id r]
  ∧ found_id <$> find_existing_conversation fingerprint (db w) = Some (c_id r)
  ∧ found_id <$> find_existing_conversation fingerprint (db res.2)
    = Some (c_id r)
  ∧ ∀ ss', res.1 = Returned ss' →
      current_conversation_id ss' = current_conversation_id ss
      ∨ current_conversation_id ss' = Some (c_id r).
Proof.
  intros Hreach Hr Hfp fingerprint res.
  destruct (reachable_ok w Hreach) as [Hdb _].
  destruct (upload_page_known up env click ss w r Hdb Hr Hfp) as [Hconv Hss].
  fold res in Hconv, Hss.
  pose proof (filter_unique c_fingerprint _ r (ok_fingerprints _ Hdb) Hr) as Hone.
  rewrite Hfp in Hone. fold fingerprint in Hone.
  assert (map c_id (filter (λ r', c_fingerprint r' = fingerprint)
                      (conversations (db res.2))) = [c_id r]) as Hids.
  { destruct Hconv as [-> | ->].
    - by rewrite Hone.
    - rewrite touched_filter, Hone. simpl. by destruct (decide _). }
  split; [exact Hids | ]. split; [ | split; [ | exact Hss]].
  - unfold find_existing_conversation. by rewrite Hone.
  - unfold find_existing_conversation.
    destruct (filter _ (conversations (db res.2))) as [|r0 l]; [done | ].
    simpl in *. by injection Hids as -> _.
Qed.


End Claims.

(** ** The claims at concrete inputs *)

Lemma gap_run :
  @process_and_save raw_collaborators gap_upload sample_env init_world
  = (Returned (Some "0a1b-0"), gap_world).
Proof. vm_compute. reflexivity. Qed.



Lemma second_upload_resolves_to_first_witness :
  @reachable raw_collaborators gap_world
  ∧ gap_row ∈ conversations (db gap_world)
  ∧ c_fingerprint gap_row
    = @get_audio_fingerprint raw_collaborators (audio_bytes again_upload)
  ∧ map c_id
      (filter (λ r', c_fingerprint r' = "AAAAAAAAAA")
         (conversations
            (db (@upload_page raw_collaborators again_upload again_env
                   (Some ProcessAudio) override_session gap_world).2)))
    = ["0a1b-0"].
Proof.
  assert (gap_row ∈ conversations (db gap_world)) as Hrow
    by (vm_compute; left).
  split; [apply gap_world_reachable | ]. split; [exact Hrow | ].
  split; [reflexivity | ].
  exact (proj1 (@second_upload_resolves_to_first raw_collaborators again_upload
                  again_env (Some ProcessAudio) override_session gap_world
                  gap_row gap_world_reachable Hrow eq_refl)).
Defined.

Lemma persisted_segment_bounds_witness :
  answer gap_upload = TranscriptCompleted gap_utterances
  ∧ ∃ ts,
      @process_audio raw_collaborators (answer gap_upload) (decoded gap_upload)
        (file_ext gap_upload) = Some ts
      ∧ map (λ t, (start_ms t, end_ms t)) ts = [(5, 10)].
Proof.
  split; [reflexivity | ].
  destruct (@persisted_segment_bounds raw_collaborators gap_upload sample_env
              init_world gap_utterances eq_refl) as (ts & Hts & Hbounds & _).
  exists ts. split; [exact Hts | exact Hbounds].
Defined.

(** C5, as the claim states it, fails: the last utterance is reported to end
    at 12 ms in audio of 10 ms; the turn is stored and loaded with the end
    10 ms, the conversation with the duration 0.012 s. *)
Lemma stored_duration_exceeds_audio :
  @audio_len raw_collaborators (decoded gap_upload) = 10
  ∧ map c_duration (conversations (db gap_world)) = [12 # 1000]
  ∧ map t_end_ms (turns (db gap_world)) = [10]
  ∧ (@load_conversation_turns raw_collaborators "0a1b-0" gap_world).1
    = Returned [ {| l_number := 2; l_speaker := "B"; l_text := "yo";
                    l_start := 5 # 1000; l_end := 10 # 1000;
                    l_audio_b64 := "AAAAA" |} ].
Proof. repeat split; vm_compute; reflexivity. Qed.

Lemma stored_duration_is_reported_end_witness :
  answer gap_upload = TranscriptCompleted gap_utterances
  ∧ ∀ conv_id w',
      @process_and_save raw_collaborators gap_upload sample_env init_world
      = (Returned (Some conv_id), w') →
      ∃ row trow,
        last (conversations (db w')) = Some row
        ∧ c_id row = conv_id
        ∧ c_duration row = 12 # 1000
        ∧ last (turns (db w')) = Some trow
        ∧ t_conversation_id trow = conv_id
        ∧ t_end_ms trow = 10.
Proof.
  split; [reflexivity | ].
  exact (@stored_duration_is_reported_end raw_collaborators gap_upload
           sample_env init_world gap_utterances eq_refl).
Defined.

Lemma deletion_is_total_witness :
  @reachable raw_collaborators gap_world
  ∧ ("0a1b-0" ∈ map c_id (conversations (db gap_world)))
  ∧ ∃ w', delete_conversation "0a1b-0" gap_world = (Returned (), w')
      ∧ get_conversation_by_id "0a1b-0" (db w') = None
      ∧ @load_conversation_turns raw_collaborators "0a1b-0" w' = (Returned [], w')
      ∧ path_exists (path_join STORAGE_DIR "0a1b-0") (files w') = false.
Proof.
  assert ("0a1b-0" ∈ map c_id (conversations (db gap_world))) as Hin
    by (vm_compute; left).
  split; [apply gap_world_reachable | ]. split; [exact Hin | ].
  exact (@deletion_is_total raw_collaborators "0a1b-0" gap_world
           gap_world_reachable Hin).
Defined.

Lemma returned_outcome {S A} (r : outcome A * S) (a : A) :
  r.1 = Returned a → r = (Returned a, r.2).
Proof. destruct r as [o s]. simpl. by intros ->. Qed.

Lemma gap_segments_saved :
  ∃ ts' fs',
    @save_audio_files raw_collaborators "0a1b-5" (sample_audio 10) "wav"
      (@extract_turns raw_collaborators (sample_audio 10) "wav" 1 gap_utterances)
      (files init_world)
    = (Returned ts', fs').
Proof.
  eexists _, _. apply returned_outcome. vm_compute. reflexivity.
Qed.


Lemma lost_world_no_dir :
  ∀ row, row ∈ turns (db lost_world) → t_conversation_id row = "0a1b-0" →
    files lost_world !! path_join STORAGE_DIR (t_audio_path row) ≠ Some Dir.
Proof.
  intros row Hrow _. vm_compute in Hrow.
  apply list_elem_of_singleton in Hrow as ->. vm_compute. discriminate.
Qed.

Lemma load_skips_missing_files_witness :
  (∀ row, row ∈ turns (db lost_world) → t_conversation_id row = "0a1b-0" →
     files lost_world !! path_join STORAGE_DIR (t_audio_path row) ≠ Some Dir)
  ∧ ∃ rows loaded,
      @load_conversation_turns raw_collaborators "0a1b-0" lost_world
      = (Returned loaded, lost_world)
      ∧ rows ≡ₚ turns_of "0a1b-0" (db lost_world)
      ∧ loaded = omap (@read_turn raw_collaborators (files lost_world)) rows.
Proof.
  split; [exact lost_world_no_dir | ].
  destruct (@load_skips_missing_files raw_collaborators "0a1b-0" lost_world
              lost_world_no_dir)
    as (rows & loaded & Hload & Hperm & _ & Hloaded & _).
  exists rows, loaded. split; [exact Hload | ]. split; [exact Hperm | exact Hloaded].
Defined.

(** * Further properties of the code *)

(** ** Durations and ages *)

Lemma int_of_inject_Z z : int_of (inject_Z z) = z.
Proof.
  unfold int_of, Qle_bool, Qceiling, Qfloor, inject_Z. simpl.
  destruct (Z.leb_spec (0 * 1) (z * 1)).
  - apply Z.div_1_r.
  - rewrite Z.div_1_r. lia.
Qed.

Lemma Qfloor_div_60 (q : Q) : Qfloor (q / 60) = Qfloor q / 60.
Proof.
  destruct q as [n d]. unfold Qdiv, Qmult, Qinv, Qfloor. simpl.
  rewrite Z.mul_1_r, Pos2Z.inj_mul, Z.div_div; lia.
Qed.

Lemma modulo_60 (q : Q) :
  int_of (modulo q 60) = Qfloor q mod 60.
Proof.
  unfold modulo. rewrite Qfloor_div_60.
  destruct q as [n d]. change (Qfloor (n # d)) with (n / Z.pos d).
  set (m := n / Z.pos d / 60).
  assert (0 ≤ n / Z.pos d - 60 * m < 60) as Hrange.
  { unfold m. pose proof (Z.mod_pos_bound (n / Z.pos d) 60 ltac:(lia)).
    rewrite Z.mod_eq in H by lia. lia. }
  assert (Qfloor ((n # d) - 60 * inject_Z m) = n / Z.pos d - 60 * m) as Hfloor.
  { unfold Qminus, Qplus, Qopp, Qmult, inject_Z, Qfloor. simpl.
    change (Z.pos (1 * 1)) with 1. change (d * (1 * 1))%positive with (d * 1)%positive.
    rewrite Pos.mul_1_r, Z.mul_1_r.
    rewrite Z.div_add by lia. lia. }
  unfold int_of.
  assert (Qle_bool 0 ((n # d) - 60 * inject_Z m) = true) as ->.
  { apply Qle_bool_iff. apply Qle_trans with (inject_Z (Qfloor ((n # d) - 60 * inject_Z m))).
    - rewrite Hfloor. change 0%Q with (inject_Z 0). rewrite <- Zle_Qle. lia.
    - apply Qfloor_le. }
  rewrite Hfloor. unfold m. rewrite Z.mod_eq by lia. lia.
Qed.

Lemma format_02d_width z : 0 ≤ z < 60 → String.length (format_02d z) = 2%nat.
Proof.
  intros Hz.
  assert (forallb (λ i, Nat.eqb (String.length (format_02d i)) 2) (seqZ 0 60) = true)
    as Hall by (vm_compute; reflexivity).
  rewrite forallb_forall in Hall.
  apply Nat.eqb_eq, Hall, list_elem_of_In, elem_of_seqZ. lia.
Qed.

(** X1. [format_duration] shows the whole seconds of its argument: the
    minutes are the floor of the seconds divided by 60, and the part after
    the colon is the remainder, always on exactly two digits; fractions of a
    second are dropped, never rounded up. *)
Theorem format_duration_whole_seconds (seconds : Q) :
  format_duration seconds
  = format_d (Qfloor seconds / 60) +:+ ":" +:+ format_02d (Qfloor seconds mod 60)
  ∧ String.length (format_02d (Qfloor seconds mod 60)) = 2%nat.
Proof.
  split.
  - unfold format_duration, floordiv.
    by rewrite int_of_inject_Z, Qfloor_div_60, modulo_60.
  - apply format_02d_width. apply Z.mod_pos_bound. lia.
Qed.

Lemma timedelta_fields now_ dt :
  td_days (timedelta_between now_ dt) = ((now_ - dt) / 1000000) / 86400
  ∧ td_seconds (timedelta_between now_ dt) = ((now_ - dt) / 1000000) mod 86400.
Proof.
  unfold timedelta_between, day_us. simpl.
  change 86400000000 with (1000000 * 86400).
  split.
  - by rewrite Z.div_div by lia.
  - rewrite Z.rem_mul_r by lia.
    rewrite (Z.mul_comm 1000000), Z.div_add by lia.
    rewrite Z.div_small; [lia | ]. apply Z.mod_pos_bound. lia.
Qed.

(** X2. For a timestamp that is not in the future, [get_time_ago] depends
    on the whole seconds elapsed only: under a minute it says "Just now",
    under an hour the whole minutes, under a day the whole hours, and from
    one day on the whole days. *)
Theorem get_time_ago_elapsed (fromisoformat : string → option Z)
    (now_ : Z) (stamp : string) (dt : Z) :
  stamp ≠ "" → fromisoformat stamp = Some dt → dt ≤ now_ →
  let elapsed := (now_ - dt) / 1000000 in
  get_time_ago fromisoformat now_ (Some stamp)
  = if elapsed <? 60 then "Just now"
    else if elapsed <? 3600 then format_d (elapsed / 60) +:+ "m ago"
    else if elapsed <? 86400 then format_d (elapsed / 3600) +:+ "h ago"
    else format_d (elapsed / 86400) +:+ "d ago".
Proof.
  intros Hne Hparse Hpast elapsed. unfold get_time_ago.
  destruct stamp as [|c stamp]; [done | ]. rewrite Hparse.
  unfold time_ago_text.
  destruct (timedelta_fields now_ dt) as [-> ->]. fold elapsed.
  assert (0 ≤ elapsed) as Hpos by (unfold elapsed; apply Z.div_pos; lia).
  destruct (Z.ltb_spec elapsed 86400) as [Hday | Hday].
  - rewrite (Z.div_small elapsed 86400), (Z.mod_small elapsed 86400) by lia.
    simpl (0 <? 0).
    destruct (Z.leb_spec 3600 elapsed), (Z.ltb_spec elapsed 3600); try lia;
      destruct (Z.leb_spec 60 elapsed), (Z.ltb_spec elapsed 60); try lia; done.
  - assert (0 < elapsed / 86400) as Hd by (apply Z.div_str_pos; lia).
    destruct (Z.ltb_spec 0 (elapsed / 86400)); [ | lia].
    destruct (Z.ltb_spec elapsed 60); [lia | ].
    destruct (Z.ltb_spec elapsed 3600); [lia | done].
Qed.

Lemma get_time_ago_elapsed_witness :
  ("2024-01-01T00:00:00" : string) ≠ ""
  ∧ (λ _ : string, Some 0) "2024-01-01T00:00:00" = Some 0
  ∧ 0 ≤ 7260000000
  ∧ get_time_ago (λ _, Some 0) 7260000000 (Some "2024-01-01T00:00:00") = "2h ago".
Proof.
  split; [done | ]. split; [reflexivity | ]. split; [lia | ].
  exact (get_time_ago_elapsed (λ _, Some 0) 7260000000 "2024-01-01T00:00:00" 0
           ltac:(done) eq_refl ltac:(lia)).
Defined.

(** X3. A timestamp that lies ahead of the clock, by a day at most, is not
    recognised as such: [get_time_ago] answers what it would answer with the
    clock one day later, so that a timestamp one second ahead reads
    "23h ago". *)
Theorem get_time_ago_ahead (fromisoformat : string → option Z)
    (now_ : Z) (stamp : string) (dt : Z) :
  fromisoformat stamp = Some dt → now_ < dt → dt - now_ ≤ day_us →
  get_time_ago fromisoformat now_ (Some stamp)
  = get_time_ago fromisoformat (now_ + day_us) (Some stamp).
Proof.
  intros Hparse Hahead Hday. unfold get_time_ago.
  destruct stamp as [|c stamp]; [done | ]. rewrite Hparse.
  unfold time_ago_text, timedelta_between. simpl.
  replace (now_ + day_us - dt) with ((now_ - dt) + 1 * day_us) by lia.
  rewrite Z.mod_add, Z.div_add by (unfold day_us; lia).
  assert ((now_ - dt) / day_us = -1) as ->
    by (unfold day_us in *; Z.div_mod_to_equations; lia).
  done.
Qed.

Lemma get_time_ago_ahead_witness :
  (λ _ : string, Some 1000000) "2024-01-01T00:00:01" = Some 1000000
  ∧ 0 < 1000000 ∧ 1000000 - 0 ≤ day_us
  ∧ get_time_ago (λ _, Some 1000000) 0 (Some "2024-01-01T00:00:01") = "23h ago".
Proof.
  split; [reflexivity | ]. split; [lia | ]. split; [unfold day_us; lia | ].
  rewrite (get_time_ago_ahead (λ _, Some 1000000) 0 "2024-01-01T00:00:01" 1000000
             eq_refl ltac:(lia) ltac:(unfold day_us; lia)).
  reflexivity.
Defined.

(** ** Listing and formats *)

(** X4. Whatever the format, [get_mime_type] answers an audio type; every
    format other than mp3, ogg, m4a and flac is served as audio/wav. *)
Theorem get_mime_type_is_audio (audio_format : string) :
  (∃ subtype, get_mime_type audio_format = "audio/" +:+ subtype)
  ∧ (audio_format ∉ ["mp3"; "ogg"; "m4a"; "flac"] →
     get_mime_type audio_format = "audio/wav").
Proof.
  unfold get_mime_type, mime_types.
  rewrite !lookup_insert, lookup_empty.
  split.
  - repeat case_decide; simpl; eexists; reflexivity.
  - intros Hnot. repeat case_decide; simpl; try done; subst;
      exfalso; apply Hnot; set_solver.
Qed.

Lemma get_mime_type_is_audio_witness :
  (("aac" : string) ∉ ["mp3"; "ogg"; "m4a"; "flac"])
  ∧ get_mime_type "aac" = "audio/wav".
Proof.
  assert (("aac" : string) ∉ ["mp3"; "ogg"; "m4a"; "flac"]) as Hnot
    by (intros Hin; repeat (apply elem_of_cons in Hin as [Hin | Hin];
                            [discriminate Hin | ]); inversion Hin).
  split; [exact Hnot | exact (proj2 (get_mime_type_is_audio "aac") Hnot)].
Defined.

#[local] Instance newer_first_trans : Transitive newer_first.
Proof. unfold newer_first. intros x y z Hxy Hyz. by etransitivity. Qed.

#[local] Instance newer_first_total : Total newer_first.
Proof. unfold newer_first. intros x y. destruct (total String.le (c_processed_at x) (c_processed_at y)); auto. Qed.

(** X5. [get_all_conversations] lists every stored conversation once, none
    invented and none left out, the one processed last first. *)
Theorem get_all_conversations_newest_first (d : database) :
  ∃ rows,
    rows ≡ₚ conversations d
    ∧ StronglySorted newer_first rows
    ∧ get_all_conversations d
      = map (λ r, (c_id r, c_filename r, c_processed_at r, c_duration r,
                   c_turns r, c_speakers r, c_last_viewed r)) rows
    ∧ length (get_all_conversations d) = length (conversations d).
Proof.
  exists (merge_sort newer_first (conversations d)).
  split; [apply merge_sort_Permutation | ].
  split; [apply StronglySorted_merge_sort; apply _ | ].
  split; [done | ].
  unfold get_all_conversations.
  by rewrite length_fmap, merge_sort_Permutation.
Qed.

(** ** What writing the files leaves alone *)

Section Frames.
Context `{Collaborators}.

Lemma save_segments_frame conv_id segments_dir audio_format ts (fs : disk) k :
  inside segments_dir k = false →
  (save_segments conv_id segments_dir audio_format ts fs).2 !! k = fs !! k.
Proof.
  intros Hk. revert fs. induction ts as [|t ts IH]; intros fs; [done | ].
  simpl. apply bind_snd_frame.
  - apply write_file_frame. by apply not_inside_not_child.
  - intros [] fs1. apply bind_snd_frame; [apply IH | done].
Qed.

(** With the directories of the program in place, [save_audio_files]
    writes below the directory of its conversation and nowhere else,
    whether it runs to its end or not. *)
Lemma save_audio_files_frame conv_id original audio_format ts (fs : disk) k :
  disk_ok fs → is_uuid_text conv_id = true →
  inside (path_join STORAGE_DIR conv_id) k = false →
  (save_audio_files conv_id original audio_format ts fs).2 !! k = fs !! k.
Proof.
  intros Hok Hc Hk. unfold save_audio_files.
  assert (∀ rest, k ≠ path_join (path_join STORAGE_DIR conv_id) rest) as Hrest
    by (intros rest; by apply not_inside_not_child).
  apply bind_snd_frame.
  { rewrite mkdir_parents_storage_child;
      [ | by apply uuid_sep_free | by apply uuid_nul_free
        | apply (ok_db_dir _ Hok) | apply (ok_storage_dir _ Hok)].
    apply mkdir_frame. intros ->. by rewrite inside_self in Hk. }
  intros [] fs1. apply bind_snd_frame; [by apply mkdir_frame | ].
  intros [] fs2. apply bind_snd_frame; [by apply write_file_frame | ].
  intros [] fs3. apply save_segments_frame.
  apply not_true_is_false. intros Hin.
  apply inside_iff in Hin as [-> | [r ->]]; [by eapply Hrest | ].
  eapply (Hrest ("segments" +:+ "/" +:+ r)).
  unfold path_join. by rewrite !sapp_assoc.
Qed.

Lemma save_audio_files_other_original conv_id original audio_format ts
    (fs : disk) rest :
  disk_ok fs → is_uuid_text conv_id = true → rest ≠ audio_format →
  (save_audio_files conv_id original audio_format ts fs).2
    !! path_join (path_join STORAGE_DIR conv_id) ("original." +:+ rest)
  = fs !! path_join (path_join STORAGE_DIR conv_id) ("original." +:+ rest).
Proof.
  intros Hok Hc Hne. unfold save_audio_files. apply bind_snd_frame.
  { rewrite mkdir_parents_storage_child;
      [ | by apply uuid_sep_free | by apply uuid_nul_free
        | apply (ok_db_dir _ Hok) | apply (ok_storage_dir _ Hok)].
    apply mkdir_frame. intros Heq. apply (f_equal String.length) in Heq.
    unfold path_join in Heq. rewrite !sapp_length in Heq. simpl in Heq. lia. }
  intros [] fs1. apply bind_snd_frame.
  { apply mkdir_frame. unfold path_join. intros Heq.
    apply (inj (append (STORAGE_DIR +:+ "/" +:+ conv_id))) in Heq.
    apply (inj (append "/")) in Heq. discriminate Heq. }
  intros [] fs2. apply bind_snd_frame.
  { apply write_file_frame. unfold path_join. intros Heq.
    apply (inj (append (STORAGE_DIR +:+ "/" +:+ conv_id))) in Heq.
    apply (inj (append "/")) in Heq. apply (inj (append "original.")) in Heq.
    done. }
  intros [] fs3. apply save_segments_frame, original_not_inside_segments.
Qed.

End Frames.

(** ** Processing an upload, end to end *)

Lemma rows_of_length conv_id uuid k ts :
  length (rows_of conv_id uuid k ts) = length ts.
Proof.
  revert k. induction ts as [|t ts IH]; intros k; simpl; [done | by rewrite IH].
Qed.

Lemma head_filter_snoc {A} (P : A → Prop) `{∀ x, Decision (P x)} (l : list A) x :
  Forall (λ y, ¬ P y) l → P x → head (filter P (l ++ [x])) = Some x.
Proof.
  intros Hl Hx. rewrite filter_app, (filter_none _ l Hl), filter_cons.
  by destruct (decide (P x)).
Qed.

Section EndToEnd.
Context `{Collaborators}.

Lemma process_and_save_created up env w conv_id w' :
  process_and_save up env w = (Returned (Some conv_id), w') →
  ∃ us, answer up = TranscriptCompleted us
    ∧ store_results up env (extract_turns (decoded up) (file_ext up) 1 us) w
      = (Returned (Some conv_id), w')
    ∧ conv_id = uuid4 env 0%nat
    ∧ (uuid4 env 0%nat ∉ map c_id (conversations (db w)))
    ∧ (get_audio_fingerprint (audio_bytes up)
        ∉ map c_fingerprint (conversations (db w)))
    ∧ conversations (db w')
      = conversations (db w)
        ++ [new_conversation up env (extract_turns (decoded up) (file_ext up) 1 us)]
    ∧ turns (db w')
      = turns (db w)
        ++ rows_of conv_id (uuid4 env) 1
             (with_paths conv_id (file_ext up)
                (extract_turns (decoded up) (file_ext up) 1 us)).
Proof.
  intros Hrun.
  destruct (process_and_save_cases up env w) as [Heq | (ts & Hpa & _ & Heq)];
    [congruence | ].
  unfold process_audio in Hpa. destruct (answer up) as [ | us]; [done | ].
  injection Hpa as <-. exists us. split; [done | ].
  rewrite Hrun in Heq. split; [done | ].
  pose proof (store_results_db up env
                (extract_turns (decoded up) (file_ext up) 1 us) w) as Hdb.
  rewrite <- Heq in Hdb. cbn [fst snd] in Hdb.
  destruct Hdb as [[_ [e He]] | (n & Hn & Hid & Hfp & Hc & Ht & Hret)]; [done | ].
  destruct Hret as [[Hret ->] | [e He]]; [ | done].
  injection Hret as ->. by rewrite take_ge in Ht by done.
Qed.

(** X6. When a press on the process button returns with a new
    conversation, looking it up by its id and by the fingerprint of the
    uploaded bytes finds the row just stored: the file name and format of
    the upload, the speaker count chosen, the number of turns produced and
    the time of processing. *)
Theorem processed_conversation_is_found up env w conv_id w' :
  process_and_save up env w = (Returned (Some conv_id), w') →
  ∃ ts,
    process_audio (answer up) (decoded up) (file_ext up) = Some ts
    ∧ get_conversation_by_id conv_id (db w')
      = Some (conv_id, name up, file_ext up,
              c_duration (new_conversation up env ts),
              Z.of_nat (length ts), speakers_expected up, now env 0%nat)
    ∧ find_existing_conversation (get_audio_fingerprint (audio_bytes up)) (db w')
      = Some (conv_id, name up, now env 0%nat, Z.of_nat (length ts),
              c_duration (new_conversation up env ts)).
Proof.
  intros Hrun.
  destruct (process_and_save_created up env w conv_id w' Hrun)
    as (us & Hans & _ & -> & Hid & Hfp & Hc & _).
  exists (extract_turns (decoded up) (file_ext up) 1 us).
  split; [by rewrite Hans | ].
  unfold get_conversation_by_id, find_existing_conversation. rewrite Hc. split.
  - rewrite head_filter_snoc; [done | | done].
    apply Forall_forall. intros r Hr Heq. apply Hid. rewrite <- Heq.
    by apply list_elem_of_fmap_2.
  - rewrite head_filter_snoc; [done | | done].
    apply Forall_forall. intros r Hr Heq. apply Hfp. rewrite <- Heq.
    by apply list_elem_of_fmap_2.
Qed.

Lemma processed_turns_of up env w conv_id w' us :
  world_ok w →
  answer up = TranscriptCompleted us →
  process_and_save up env w = (Returned (Some conv_id), w') →
  turns_of conv_id (db w')
  = rows_of conv_id (uuid4 env) 1
      (with_paths conv_id (file_ext up)
         (extract_turns (decoded up) (file_ext up) 1 us)).
Proof.
  intros [Hdb _] Hans Hrun.
  destruct (process_and_save_created up env w conv_id w' Hrun)
    as (us' & Hans' & _ & -> & Hid & _ & _ & Ht).
  rewrite Hans in Hans'. injection Hans' as <-.
  unfold turns_of. rewrite Ht, filter_app, filter_none, filter_all; [done | | ].
  - apply rows_of_owner.
  - apply Forall_forall. intros t Hin Heq. apply Hid. rewrite <- Heq.
    by apply (ok_owner _ Hdb).
Qed.


(** X8. A press on the process button stores nothing when the transcriber
    reports an error or when no utterance survives the clamping: tables and
    disk stay as they were and no conversation is opened. *)
Theorem nothing_stored_without_turns up env w :
  (∀ us, answer up = TranscriptCompleted us →
         Forall (λ u, ¬ survives (decoded up) u) us) →
  process_and_save up env w = (Returned None, w).
Proof.
  intros Hnone. unfold process_and_save, process_audio.
  destruct (answer up) as [msg | us]; [done | ].
  rewrite extract_turns_filter.
  rewrite (filter_none (λ p, survives (decoded up) p.2)); [done | ].
  specialize (Hnone us eq_refl). clear -Hnone.
  generalize 1. induction us as [|u us IH]; intros idx; simpl; [constructor | ].
  apply Forall_cons in Hnone as [Hu Hnone]. constructor; [done | by apply IH].
Qed.

End EndToEnd.

(** ** Duplicates, with and without the override *)

Section Duplicates.
Context `{Collaborators}.

Lemma load_and_touch_returns env conv_id w :
  world_ok w →
  load_and_touch env conv_id w
  = (Returned (),
     {| db := (update_last_viewed (now env 0%nat) conv_id (db w)).2;
        files := files w |}).
Proof.
  intros Hok. unfold load_and_touch. munfold.
  by rewrite load_conversation_turns_ok.
Qed.

(** X9. In every reachable world, as long as the override is not
    confirmed, a run of the upload page with bytes whose fingerprint is
    stored ends normally whatever is clicked, writes no file and touches no
    turn row; of the conversations only [last_viewed] can change. *)
Theorem duplicate_without_override_is_read_only up env click ss w r :
  reachable w →
  r ∈ conversations (db w) →
  c_fingerprint r = get_audio_fingerprint (audio_bytes up) →
  show_override_warning ss = false →
  let res := upload_page up env click ss w in
  (∃ ss', res.1 = Returned ss')
  ∧ files res.2 = files w
  ∧ turns (db res.2) = turns (db w)
  ∧ Forall2 (λ r0 r1, r1 = r0 ∨ ∃ stamp, r1 = set_last_viewed stamp r0)
      (conversations (db w)) (conversations (db res.2)).
Proof.
  intros Hreach Hr Hfp Hwarn res. pose proof (reachable_ok w Hreach) as Hok.
  assert (Forall2 (λ r0 r1 : conversation_row,
                     r1 = r0 ∨ ∃ stamp, r1 = set_last_viewed stamp r0)
            (conversations (db w)) (conversations (db w))) as Hsame
    by (apply Forall_Forall2_diag, Forall_forall; intros; by left).
  unfold res, upload_page. cbn zeta. rewrite <- Hfp.
  destruct Hok as [Hdb Hfs].
  rewrite (find_existing_known _ _ (ok_fingerprints _ Hdb) Hr).
  cbn [show_override_warning]. rewrite Hwarn.
  destruct click as [[] | ]; try (by eauto).
  munfold. rewrite load_and_touch_returns by done. cbn [fst snd db files].
  split; [eauto | ]. split; [done | ]. split; [done | ].
  unfold update_last_viewed. cbn [snd conversations].
  clear. induction (conversations (db w)) as [|r0 l IH]; simpl; constructor;
    [ | done].
  destruct (decide (c_id r0 = c_id r)); eauto.
Qed.

(** X10. Once the override is confirmed, a press on the process button
    for bytes whose fingerprint is stored never ends normally when turns
    were produced, and the tables stay as they were. When the files of the
    would-be conversation could be written, the press fails with sqlite3's
    constraint error and leaves them behind: the directory, with the
    uploaded original in it, stays on the disk. *)
Theorem override_leaves_orphan_files up env ss w r ts :
  r ∈ conversations (db w) →
  c_fingerprint r = get_audio_fingerprint (audio_bytes up) →
  show_override_warning ss = true →
  process_audio (answer up) (decoded up) (file_ext up) = Some ts →
  ts ≠ [] →
  let res := upload_page up env (Some ProcessAudio) ss w in
  (∃ e, res.1 = Raised e)
  ∧ db res.2 = db w
  ∧ ∀ ts' fs',
      save_audio_files (uuid4 env 0%nat) (audio_bytes up) (file_ext up) ts
        (files w) = (Returned ts', fs') →
      res.1 = Raised IntegrityError
      ∧ files res.2 = fs'
      ∧ fs' !! path_join STORAGE_DIR (uuid4 env 0%nat) = Some Dir
      ∧ fs' !! path_join (path_join STORAGE_DIR (uuid4 env 0%nat))
                 ("original." +:+ file_ext up)
        = Some (File (audio_bytes up)).
Proof.
  intros Hr Hfp Hwarn Hpa Hne res.
  unfold res, upload_page. cbn zeta. cbn [show_override_warning]. rewrite Hwarn.
  assert (∀ s0, let res := process_section up env (Some ProcessAudio) s0 w in
            (∃ e, res.1 = Raised e)
            ∧ db res.2 = db w
            ∧ ∀ ts' fs',
                save_audio_files (uuid4 env 0%nat) (audio_bytes up) (file_ext up)
                  ts (files w) = (Returned ts', fs') →
                res.1 = Raised IntegrityError
                ∧ files res.2 = fs'
                ∧ fs' !! path_join STORAGE_DIR (uuid4 env 0%nat) = Some Dir
                ∧ fs' !! path_join (path_join STORAGE_DIR (uuid4 env 0%nat))
                           ("original." +:+ file_ext up)
                  = Some (File (audio_bytes up))) as Hsection.
  { intros s0. unfold process_section, process_and_save. rewrite Hpa.
    destruct ts as [|t0 ts0]; [done | ].
    unfold store_results. munfold.
    destruct (save_audio_files (uuid4 env 0%nat) (audio_bytes up) (file_ext up)
                (t0 :: ts0) (files w)) as [[ts' | e] fs'] eqn:Hsave;
      cbn [fst snd db files].
    - unfold save_conversation.
      destruct (decide _) as [_ | Hno]; cbn [fst snd db files].
      + split; [eauto | ]. split; [done | ].
        intros ts'' fs'' [= <- <-].
        apply save_audio_files_returned in Hsave as (_ & Hdir & Horig & _).
        done.
      + destruct Hno. right. rewrite <- Hfp. by apply list_elem_of_fmap_2.
    - split; [eauto | ]. split; [done | ]. intros ts'' fs'' Heq. done. }
  destruct (find_existing_conversation _ (db w)) as [[[[[c f] p] tc] du] | ];
    apply Hsection.
Qed.

End Duplicates.

(** ** What an operation leaves alone *)

Lemma omap_ext_in {A B} (f g : A → option B) (l : list A) :
  (∀ x, x ∈ l → f x = g x) → omap f l = omap g l.
Proof.
  induction l as [|a l IH]; intros Hfg; [done | ]. csimpl.
  rewrite (Hfg a) by left. rewrite IH; [done | ].
  intros x Hx. apply Hfg. by right.
Qed.

Section Confinement.
Context `{Collaborators}.

Lemma delete_conversation_world conv_id w :
  (delete_conversation conv_id w).2 = w
  ∨ ∃ r, r ∈ conversations (db w) ∧ c_id r = conv_id
      ∧ (delete_conversation conv_id w).2
        = {| db := (delete_rows conv_id (db w)).2;
             files := if path_exists (path_join STORAGE_DIR (c_storage_path r)) (files w)
                      then (rmtree (path_join STORAGE_DIR (c_storage_path r)) (files w)).2
                      else files w |}.
Proof.
  unfold delete_conversation.
  destruct (head (filter (λ r, c_id r = conv_id) (conversations (db w))))
    as [r | ] eqn:Hr; [ | by left].
  apply head_filter_Some in Hr as [Hin Hid]. munfold.
  destruct (path_exists (path_join STORAGE_DIR (c_storage_path r)) (files w))
    eqn:Hex.
  - destruct (rmtree (path_join STORAGE_DIR (c_storage_path r)) (files w))
      as [[[] | e] fs'] eqn:Hrm; cbn [fst snd db files].
    + right. exists r. split; [done | ]. split; [done | ].
      by rewrite Hex, Hrm.
    + left. unfold rmtree in Hrm.
      destruct (files w !! _) as [[b | ] | ]; simplify_eq. by destruct w.
  - right. exists r. split; [done | ]. split; [done | ].
    by rewrite Hex.
Qed.


(** X12. In every reachable world, once the conversation stored for some
    bytes is deleted, their fingerprint is found no more, and a press on the
    process button with these bytes processes them anew, whatever the
    session. *)
Theorem deleted_upload_can_be_processed_again up env ss w r :
  reachable w →
  r ∈ conversations (db w) →
  c_fingerprint r = get_audio_fingerprint (audio_bytes up) →
  let w' := (delete_conversation (c_id r) w).2 in
  find_existing_conversation (get_audio_fingerprint (audio_bytes up)) (db w') = None
  ∧ (upload_page up env (Some ProcessAudio) ss w').2 = (process_and_save up env w').2.
Proof.
  intros Hreach Hr Hfp w'. pose proof (reachable_ok w Hreach) as Hok.
  assert (find_existing_conversation (get_audio_fingerprint (audio_bytes up)) (db w')
          = None) as Hnone.
  { destruct (row_present (c_id r) (db w)) as [r0 Hr0];
      [by apply list_elem_of_fmap_2 | ].
    destruct (delete_conversation_present (c_id r) w r0 Hok Hr0) as (fs' & Hdel & _).
    unfold w'. rewrite Hdel. cbn [snd db]. unfold find_existing_conversation.
    rewrite (proj2 (head_filter_None _ _)); [done | ].
    intros x [Hx Hin]%list_elem_of_filter Hxfp.
    destruct Hok as [Hdb _].
    pose proof (filter_unique c_fingerprint _ r (ok_fingerprints _ Hdb) Hr) as Hone.
    assert (x ∈ filter (λ y, c_fingerprint y = c_fingerprint r) (conversations (db w)))
      as Hx' by (apply list_elem_of_filter; split; [congruence | done]).
    rewrite Hone in Hx'. apply list_elem_of_singleton in Hx'. by subst x. }
  split; [exact Hnone | ].
  unfold upload_page. cbn zeta. rewrite Hnone. cbn [show_override_warning].
  destruct (show_override_warning ss); unfold process_section; munfold;
    by destruct (process_and_save up env w') as [[[c | ] | e] w1].
Qed.

(** X13. In every reachable world a press on the process button, for
    speaker labels and an extension that are plain names, leaves every path
    outside the directory of the conversation it set out to create as it
    was, however it ends, and it neither removes nor rewrites a row already
    stored. *)
Theorem processing_is_confined up env w :
  reachable w →
  (∀ k, is_uuid_text (uuid4 env k) = true) →
  plain (file_ext up) = true →
  (∀ us, answer up = TranscriptCompleted us →
         Forall (λ u, plain (u_speaker u) = true) us) →
  let w' := (process_and_save up env w).2 in
  (∀ k, inside (path_join STORAGE_DIR (uuid4 env 0%nat)) k = false →
        files w' !! k = files w !! k)
  ∧ conversations (db w) `prefix_of` conversations (db w')
  ∧ turns (db w) `prefix_of` turns (db w').
Proof.
  intros Hreach Huuid _ _ w'. unfold w'.
  destruct (reachable_ok w Hreach) as [_ Hfs].
  destruct (process_and_save_cases up env w) as [-> | (ts & _ & _ & ->)];
    [done | ].
  split.
  - intros k Hk. rewrite store_results_files. by apply save_audio_files_frame.
  - destruct (store_results_db up env ts w)
      as [[-> _] | (n & _ & _ & _ & -> & -> & _)]; [done | ].
    split; by eexists.
Qed.

End Confinement.

(** ** Keys *)

Lemma save_turns_keys conv_id uuid k ts (d : database) :
  keys_ok d → keys_ok (save_turns conv_id uuid k ts d).2.
Proof.
  revert k d. induction ts as [|t ts IH]; intros k d Hok; [done | ].
  simpl. munfold. destruct (audio_path t) as [p | ]; [ | done].
  unfold save_turn. destruct (decide _) as [Hdup | Hfresh]; [done | ].
  apply IH. destruct Hok as [Hc Ht]. split; [done | ].
  cbn [turns]. rewrite fmap_app. apply NoDup_app. split; [done | ].
  split; [ | apply NoDup_singleton].
  intros x Hx Hx'. apply list_elem_of_singleton in Hx'. by subst x.
Qed.

Section Keys.
Context `{Collaborators}.

(** What holds of the empty tables and is kept by touching a row, by
    deleting a conversation and by storing results holds of the tables of
    every reachable world. *)
Lemma reachable_db_invariant (P : database → Prop) :
  P init_database →
  (∀ stamp conv_id d, P d → P (update_last_viewed stamp conv_id d).2) →
  (∀ conv_id d, P d → P (delete_rows conv_id d).2) →
  (∀ up env ts w, P (db w) → P (db (store_results up env ts w).2)) →
  ∀ w, reachable w → P (db w).
Proof.
  intros Hinit Htouch Hdelete Hstore w Hreach.
  induction Hreach as [ | a env ss w _ IH Huuid]; [done | ].
  assert (∀ c, P (db (load_and_touch env c w).2)) as Hload.
  { intros c. destruct (load_and_touch_world env c w) as [-> | ->];
      [done | by apply Htouch]. }
  assert (∀ up click s0, P (db (process_section up env click s0 w).2)) as Hsec.
  { intros up click s0. unfold process_section.
    destruct click as [[] | ]; try done. munfold.
    destruct (process_and_save_cases up env w) as [-> | (ts & _ & _ & ->)];
      [done | ].
    specialize (Hstore up env ts w IH).
    by destruct (store_results up env ts w) as [[[c | ] | e] w1]. }
  destruct a as [up click | act]; simpl.
  - unfold upload_page.
    destruct (find_existing_conversation _ (db w)) as [[[[[c f] p] tc] du] | ];
      destruct (show_override_warning ss); cbn [show_override_warning];
      try (destruct click as [[] | ]); try done; try apply Hsec;
      rewrite then_ret_world; apply Hload.
  - unfold history_page. destruct act as [c | c].
    + specialize (Hload c). munfold.
      destruct (load_and_touch env c w) as [[[] | e] w1]; [ | done].
      cbn [snd] in *. by destruct (get_conversation_by_id c (db w1)).
    + rewrite then_ret_world.
      destruct (delete_conversation_world c w) as [-> | (r & _ & _ & ->)];
        [done | by apply Hdelete].
Qed.

Lemma store_results_keys up env ts w :
  keys_ok (db w) → keys_ok (db (store_results up env ts w).2).
Proof.
  intros Hok. unfold store_results. munfold.
  destruct (save_audio_files _ _ _ ts (files w)) as [[ts' | e] fs'];
    cbn [fst snd db files]; [ | done].
  unfold save_conversation. destruct (decide _) as [Hdup | Hfresh];
    cbn [fst snd db files]; [done | ].
  match goal with |- context [save_turns ?c ?u ?k ?l ?d1] =>
    assert (keys_ok (save_turns c u k l d1).2) as Hkeys;
    [ | by destruct (save_turns c u k l d1) as [[[] | e] d2] ] end.
  apply save_turns_keys. destruct Hok as [Hc Ht]. split; [ | done].
  cbn [conversations]. rewrite fmap_app. apply NoDup_app. split; [done | ].
  split; [ | apply NoDup_singleton].
  intros x Hx Hx'. apply list_elem_of_singleton in Hx'. subst x.
  apply Hfresh. by left.
Qed.

(** X14. In every reachable world no two conversations share an id and no
    two turn rows share an id, whatever uuids and failures occurred on the
    way: the primary keys reject the rest. *)
Theorem reachable_keys_unique w :
  reachable w →
  NoDup (map c_id (conversations (db w))) ∧ NoDup (map t_id (turns (db w))).
Proof.
  apply (reachable_db_invariant keys_ok).
  - split; constructor.
  - intros stamp c d [Hc Ht]. split; [ | done].
    unfold update_last_viewed. cbn [snd conversations]. by rewrite touched_ids.
  - intros c d [Hc Ht]. unfold delete_rows. split; cbn [snd conversations turns].
    + eapply sublist_NoDup; [exact Hc | ]. apply fmap_sublist, sublist_filter.
    + eapply sublist_NoDup; [exact Ht | ]. apply fmap_sublist, sublist_filter.
  - apply store_results_keys.
Qed.

End Keys.

(** ** Viewing *)

Lemma touched_filter_id stamp conv_id other (l : list conversation_row) :
  filter (λ r, c_id r = other)
    (map (λ r, if decide (c_id r = conv_id) then set_last_viewed stamp r else r) l)
  = map (λ r, if decide (c_id r = conv_id) then set_last_viewed stamp r else r)
      (filter (λ r, c_id r = other) l).
Proof.
  induction l as [|r l IH]; [done | ]. simpl. rewrite !filter_cons, IH.
  destruct (decide (c_id r = conv_id)) as [Hid | Hid]; simpl;
    repeat case_decide; simpl in *; try done;
    destruct (decide (c_id r = conv_id)); done.
Qed.

(** X15. Marking a conversation as viewed changes no answer of the
    lookups: [get_conversation_by_id] and [find_existing_conversation]
    return for every key what they returned before, and the turn rows are
    untouched. *)
Theorem viewing_changes_no_lookup (stamp conv_id : string) (d : database) :
  let d' := (update_last_viewed stamp conv_id d).2 in
  (∀ other, get_conversation_by_id other d' = get_conversation_by_id other d)
  ∧ (∀ fingerprint, find_existing_conversation fingerprint d'
                    = find_existing_conversation fingerprint d)
  ∧ turns d' = turns d.
Proof.
  intros d'. unfold d', update_last_viewed. cbn [snd].
  split; [ | split; [ | done]].
  - intros other. unfold get_conversation_by_id. cbn [conversations].
    rewrite touched_filter_id.
    destruct (filter _ (conversations d)) as [|r l]; [done | ]. simpl.
    by destruct (decide (c_id r = conv_id)).
  - intros fp. unfold find_existing_conversation. cbn [conversations].
    rewrite touched_filter.
    destruct (filter _ (conversations d)) as [|r l]; [done | ]. simpl.
    by destruct (decide (c_id r = conv_id)).
Qed.

(** ** Names of segments and of archive members *)

(** X16. Two turns with different numbers, none negative, never get the
    same segment file name, whatever their speaker labels and however many
    digits the numbers take: no turn overwrites the segment of another. *)
Theorem segment_names_distinct `{Collaborators} (t t' : turn)
    (audio_format : string) :
  0 ≤ number t → 0 ≤ number t' → number t ≠ number t' →
  segment_filename t audio_format ≠ segment_filename t' audio_format.
Proof.
  intros Ht Ht' Hne Heq. apply Hne.
  by apply (segment_filename_number t t' audio_format).
Qed.

Lemma segment_names_distinct_witness :
  0 ≤ number (sample_turn 1 "a_1") ∧ 0 ≤ number (sample_turn 1001 "a")
  ∧ number (sample_turn 1 "a_1") ≠ number (sample_turn 1001 "a")
  ∧ @segment_filename raw_collaborators (sample_turn 1 "a_1") "wav"
    ≠ @segment_filename raw_collaborators (sample_turn 1001 "a") "wav".
Proof.
  assert (0 ≤ number (sample_turn 1 "a_1")) as H1 by (simpl; lia).
  assert (0 ≤ number (sample_turn 1001 "a")) as H2 by (simpl; lia).
  assert (number (sample_turn 1 "a_1") ≠ number (sample_turn 1001 "a")) as H3
    by (simpl; lia).
  split; [exact H1 | ]. split; [exact H2 | ]. split; [exact H3 | ].
  exact (@segment_names_distinct raw_collaborators (sample_turn 1 "a_1")
           (sample_turn 1001 "a") "wav" H1 H2 H3).
Defined.

Lemma until_nul_plain s : nul_free s = true → until_nul s = s.
Proof.
  induction s as [|c s IH]; [done | ]. simpl. intros [Hc Hs]%andb_prop.
  destruct (Ascii.eqb c Ascii.zero); [done | ]. by rewrite (IH Hs).
Qed.

Section Archive.
Context `{Collaborators}.


End Archive.

(** ** The further properties at concrete inputs *)

Lemma processed_conversation_is_found_witness :
  @process_and_save raw_collaborators gap_upload sample_env init_world
  = (Returned (Some "0a1b-0"), gap_world)
  ∧ found_id <$> find_existing_conversation "AAAAAAAAAA" (db gap_world)
    = Some "0a1b-0".
Proof.
  split; [exact gap_run | ].
  destruct (@processed_conversation_is_found raw_collaborators gap_upload
              sample_env init_world "0a1b-0" gap_world gap_run)
    as (ts & _ & _ & Hfind).
  change (@get_audio_fingerprint raw_collaborators (audio_bytes gap_upload))
    with "AAAAAAAAAA" in Hfind.
  by rewrite Hfind.
Defined.


Lemma failed_upload_no_turns :
  ∀ us, answer failed_upload = TranscriptCompleted us →
        Forall (λ u, ¬ @survives raw_collaborators (decoded failed_upload) u) us.
Proof. intros us Hus. discriminate Hus. Qed.

Lemma nothing_stored_without_turns_witness :
  (∀ us, answer failed_upload = TranscriptCompleted us →
         Forall (λ u, ¬ @survives raw_collaborators (decoded failed_upload) u) us)
  ∧ @process_and_save raw_collaborators failed_upload sample_env gap_world
    = (Returned None, gap_world).
Proof.
  split; [exact failed_upload_no_turns | ].
  exact (@nothing_stored_without_turns raw_collaborators failed_upload sample_env
           gap_world failed_upload_no_turns).
Defined.

Lemma gap_row_stored : gap_row ∈ conversations (db gap_world).
Proof. vm_compute. left. Qed.

Lemma duplicate_without_override_is_read_only_witness :
  @reachable raw_collaborators gap_world
  ∧ gap_row ∈ conversations (db gap_world)
  ∧ c_fingerprint gap_row
    = @get_audio_fingerprint raw_collaborators (audio_bytes again_upload)
  ∧ show_override_warning sample_session = false
  ∧ files (@upload_page raw_collaborators again_upload again_env
             (Some ProcessAudio) sample_session gap_world).2
    = files gap_world.
Proof.
  split; [apply gap_world_reachable | ]. split; [exact gap_row_stored | ].
  split; [reflexivity | ]. split; [reflexivity | ].
  exact (proj1 (proj2 (@duplicate_without_override_is_read_only raw_collaborators
                         again_upload again_env (Some ProcessAudio)
                         sample_session gap_world gap_row gap_world_reachable
                         gap_row_stored eq_refl eq_refl))).
Defined.

Lemma again_env_uuid k : is_uuid_text (uuid4 again_env k) = true.
Proof. destruct k as [|k]; reflexivity. Qed.

Lemma again_turns_nonempty :
  @extract_turns raw_collaborators (sample_audio 10) "mp3" 1 gap_utterances ≠ [].
Proof. intros Heq. vm_compute in Heq. discriminate Heq. Qed.

Lemma again_files_saved :
  ∃ ts' fs',
    @save_audio_files raw_collaborators (uuid4 again_env 0%nat)
      (audio_bytes again_upload) (file_ext again_upload)
      (@extract_turns raw_collaborators (sample_audio 10) "mp3" 1 gap_utterances)
      (files gap_world)
    = (Returned ts', fs').
Proof.
  eexists _, _. apply returned_outcome. vm_compute. reflexivity.
Qed.

Lemma override_leaves_orphan_files_witness :
  gap_row ∈ conversations (db gap_world)
  ∧ show_override_warning override_session = true
  ∧ (@upload_page raw_collaborators again_upload again_env (Some ProcessAudio)
       override_session gap_world).1 = Raised IntegrityError
  ∧ files (@upload_page raw_collaborators again_upload again_env
             (Some ProcessAudio) override_session gap_world).2
      !! path_join STORAGE_DIR "0a1b-7" = Some Dir.
Proof.
  split; [exact gap_row_stored | ]. split; [reflexivity | ].
  destruct (@override_leaves_orphan_files raw_collaborators again_upload
              again_env override_session gap_world gap_row
              (@extract_turns raw_collaborators (sample_audio 10) "mp3" 1
                 gap_utterances)
              gap_row_stored eq_refl eq_refl eq_refl again_turns_nonempty)
    as (_ & _ & Hsaved).
  destruct again_files_saved as (ts' & fs' & Hsave).
  destruct (Hsaved ts' fs' Hsave) as (Hout & Hfiles & Hdir & _).
  split; [exact Hout | ]. rewrite Hfiles. exact Hdir.
Defined.


Lemma deleted_upload_can_be_processed_again_witness :
  @reachable raw_collaborators gap_world
  ∧ gap_row ∈ conversations (db gap_world)
  ∧ c_fingerprint gap_row
    = @get_audio_fingerprint raw_collaborators (audio_bytes again_upload)
  ∧ find_existing_conversation
      (@get_audio_fingerprint raw_collaborators (audio_bytes again_upload))
      (db (delete_conversation (c_id gap_row) gap_world).2) = None.
Proof.
  split; [apply gap_world_reachable | ]. split; [exact gap_row_stored | ].
  split; [reflexivity | ].
  exact (proj1 (@deleted_upload_can_be_processed_again raw_collaborators
                  again_upload again_env sample_session gap_world gap_row
                  gap_world_reachable gap_row_stored eq_refl)).
Defined.

Lemma reachable_keys_unique_witness :
  @reachable raw_collaborators gap_world
  ∧ NoDup (map c_id (conversations (db gap_world)))
  ∧ NoDup (map t_id (turns (db gap_world))).
Proof.
  split; [apply gap_world_reachable | ].
  exact (@reachable_keys_unique raw_collaborators gap_world gap_world_reachable).
Defined.


(** ** The session and the transcript *)

Section Session.
Context `{Collaborators}.

(** X18. The override is confirmed for the session, not for a file: once
    it is pressed for a stored upload, nothing is written, and from then on
    a press on the process button processes whatever is uploaded, stored
    already or not. *)
Theorem override_outlives_its_upload up env ss w :
  is_Some (find_existing_conversation
             (get_audio_fingerprint (audio_bytes up)) (db w)) →
  show_override_warning ss = false →
  ∃ ss1,
    upload_page up env (Some Override) ss w = (Returned ss1, w)
    ∧ show_override_warning ss1 = true
    ∧ ∀ up2 env2,
        (upload_page up2 env2 (Some ProcessAudio) ss1 w).2
        = (process_and_save up2 env2 w).2.
Proof.
  intros [[[[[c f] p] tc] du] Hfind] Hwarn.
  unfold upload_page. cbn zeta. rewrite Hfind. cbn [show_override_warning].
  rewrite Hwarn. eexists. split; [done | ]. split; [done | ].
  intros up2 env2. cbn [show_override_warning].
  destruct (find_existing_conversation
              (get_audio_fingerprint (audio_bytes up2)) (db w))
    as [[[[[c' f'] p'] tc'] du'] | ];
    unfold process_section; munfold;
    by destruct (process_and_save up2 env2 w) as [[[c0 | ] | e] w1].
Qed.


End Session.

Lemma sapp_inv_tail (a b r : string) : a +:+ r = b +:+ r → a = b.
Proof.
  intros Heq. apply chars_inj. apply (f_equal list_ascii_of_string) in Heq.
  rewrite !chars_app in Heq. by apply app_inv_tail in Heq.
Qed.

Lemma lower_ascii_fixed c :
  lower_ascii c = c
  ↔ negb ((65 <=? N_of_ascii c) && (N_of_ascii c <=? 90))%N = true.
Proof.
  destruct c as [[] [] [] [] [] [] [] []]; vm_compute; split; intros Heq;
    first [reflexivity | discriminate Heq].
Qed.

Lemma lower_letters_fixed s : lower_letters s = s ↔ no_capital s = true.
Proof.
  induction s as [|c s IH]; [done | ]. simpl. rewrite andb_true_iff. split.
  - intros Heq. injection Heq as Hc Hs. split.
    + by apply lower_ascii_fixed.
    + by apply IH.
  - intros [Hc Hs]. apply lower_ascii_fixed in Hc. apply IH in Hs.
    by rewrite Hc, Hs.
Qed.

Section Downloads.
Context `{Collaborators}.

(** X20. The file name offered by the download button of a turn and the
    name of its segment on the disk and in the archive are the same exactly
    when [str.lower] leaves the speaker label as it is; for a label of ASCII
    characters that is exactly when it holds no capital letter. *)
Theorem download_name_matches_segment (t : turn) (audio_format : string) :
  (download_name t audio_format = segment_filename t audio_format
   ↔ lower (speaker t) = speaker t)
  ∧ (is_ascii (speaker t) = true →
     (download_name t audio_format = segment_filename t audio_format
      ↔ no_capital (speaker t) = true)).
Proof.
  assert (download_name t audio_format = segment_filename t audio_format
          ↔ lower (speaker t) = speaker t) as Hiff.
  { unfold download_name, segment_filename. simpl. split.
    - intros Heq. by apply sapp_inv_tail in Heq.
    - by intros ->. }
  split; [exact Hiff | ]. intros Hascii.
  rewrite Hiff, (lower_is_ascii _ Hascii). apply lower_letters_fixed.
Qed.

End Downloads.

Lemma download_name_matches_segment_witness :
  is_ascii (speaker (sample_turn 1 "Ab")) = true
  ∧ no_capital (speaker (sample_turn 1 "Ab")) = false
  ∧ download_name (sample_turn 1 "Ab") "wav"
    ≠ @segment_filename raw_collaborators (sample_turn 1 "Ab") "wav".
Proof.
  assert (is_ascii (speaker (sample_turn 1 "Ab")) = true) as Hascii by reflexivity.
  split; [exact Hascii | ]. split; [reflexivity | ].
  intros Heq.
  apply (proj2 (@download_name_matches_segment raw_collaborators
                  (sample_turn 1 "Ab") "wav") Hascii) in Heq.
  discriminate Heq.
Defined.

Section Originals.
Context `{Collaborators}.

(** X21. The history page looks for the original under the last dot-part
    of the stored file name, while the upload stored it under the
    lower-cased extension. In every reachable world, for a conversation just
    processed into a directory that held no such file, the original is found
    exactly when the two agree: an upload named with a capital extension is
    stored but not offered for download. *)
Theorem history_finds_original up env w conv_id w' :
  reachable w →
  (∀ k, is_uuid_text (uuid4 env k) = true) →
  process_and_save up env w = (Returned (Some conv_id), w') →
  files w !! history_original_path conv_id (name up) = None →
  path_exists (history_original_path conv_id (name up)) (files w') = true
  ↔ last_dot_part (name up) = file_ext up.
Proof.
  intros Hreach Huuid Hrun Hfresh.
  destruct (reachable_ok w Hreach) as [_ Hfs].
  destruct (process_and_save_created up env w conv_id w' Hrun)
    as (us & _ & Hstore & -> & _).
  destruct (store_results_saved up env _ w _ w' Hstore) as [ts' Hsaved].
  unfold path_exists, history_original_path in *. split.
  - intros Hexists.
    destruct (decide (last_dot_part (name up) = file_ext up)) as [ | Hne];
      [done | ].
    pose proof (save_audio_files_other_original (uuid4 env 0%nat)
                  (audio_bytes up) (file_ext up)
                  (extract_turns (decoded up) (file_ext up) 1 us) (files w)
                  (last_dot_part (name up)) Hfs (Huuid 0%nat) Hne) as Hframe.
    rewrite Hsaved in Hframe. cbn [snd] in Hframe.
    rewrite Hframe, Hfresh in Hexists. discriminate Hexists.
  - intros ->.
    apply save_audio_files_returned in Hsaved as (_ & _ & Horig & _).
    by rewrite Horig.
Qed.

End Originals.

Lemma capitals_run :
  @process_and_save raw_collaborators capitals_upload sample_env init_world
  = (Returned (Some "0a1b-0"),
     (@process_and_save raw_collaborators capitals_upload sample_env init_world).2).
Proof. vm_compute. reflexivity. Qed.

Lemma history_finds_original_witness :
  @reachable raw_collaborators init_world
  ∧ (∀ k, is_uuid_text (uuid4 sample_env k) = true)
  ∧ files init_world !! history_original_path "0a1b-0" (name capitals_upload) = None
  ∧ path_exists (history_original_path "0a1b-0" (name capitals_upload))
      (files (@process_and_save raw_collaborators capitals_upload sample_env
                init_world).2) = false.
Proof.
  assert (files init_world !! history_original_path "0a1b-0" (name capitals_upload)
          = None) as Hfresh by (vm_compute; reflexivity).
  split; [apply reachable_init | ]. split; [apply sample_env_uuid | ].
  split; [exact Hfresh | ].
  pose proof (@history_finds_original raw_collaborators capitals_upload
                sample_env init_world "0a1b-0" _ reachable_init sample_env_uuid
                capitals_run Hfresh) as Hiff.
  destruct (path_exists _ _); [ | reflexivity].
  destruct Hiff as [Hiff _]. specialize (Hiff eq_refl). discriminate Hiff.
Defined.

Lemma override_outlives_its_upload_witness :
  is_Some (find_existing_conversation
             (@get_audio_fingerprint raw_collaborators (audio_bytes again_upload))
             (db gap_world))
  ∧ show_override_warning sample_session = false
  ∧ ∃ ss1,
      @upload_page raw_collaborators again_upload again_env (Some Override)
        sample_session gap_world = (Returned ss1, gap_world)
      ∧ show_override_warning ss1 = true.
Proof.
  assert (is_Some (find_existing_conversation
                     (@get_audio_fingerprint raw_collaborators
                        (audio_bytes again_upload)) (db gap_world))) as Hfound
    by (vm_compute; eauto).
  split; [exact Hfound | ]. split; [reflexivity | ].
  destruct (@override_outlives_its_upload raw_collaborators again_upload
              again_env sample_session gap_world Hfound eq_refl)
    as (ss1 & Hrun & Hflag & _).
  exists ss1. split; [exact Hrun | exact Hflag].
Defined.


Lemma gap_labels_plain :
  ∀ us, answer gap_upload = TranscriptCompleted us →
        Forall (λ u, plain (u_speaker u) = true) us.
Proof. intros us [= <-]. repeat constructor. Qed.

Lemma processing_is_confined_witness :
  @reachable raw_collaborators init_world
  ∧ (∀ k, is_uuid_text (uuid4 sample_env k) = true)
  ∧ plain (file_ext gap_upload) = true
  ∧ (∀ us, answer gap_upload = TranscriptCompleted us →
           Forall (λ u, plain (u_speaker u) = true) us)
  ∧ inside (path_join STORAGE_DIR (uuid4 sample_env 0%nat)) STORAGE_DIR = false
  ∧ files (@process_and_save raw_collaborators gap_upload sample_env
             init_world).2 !! STORAGE_DIR
    = files init_world !! STORAGE_DIR.
Proof.
  assert (inside (path_join STORAGE_DIR (uuid4 sample_env 0%nat)) STORAGE_DIR
          = false) as Hout by (vm_compute; reflexivity).
  split; [apply reachable_init | ]. split; [apply sample_env_uuid | ].
  split; [reflexivity | ]. split; [exact gap_labels_plain | ].
  split; [exact Hout | ].
  exact (proj1 (@processing_is_confined raw_collaborators gap_upload sample_env
                  init_world reachable_init sample_env_uuid eq_refl
                  gap_labels_plain) STORAGE_DIR Hout).
Defined.

(** ** Plain names *)

Lemma zeros_plain k : sep_free (zeros k) = true ∧ nul_free (zeros k) = true.
Proof. induction k as [|k [IH1 IH2]]; simpl; by rewrite ?IH1, ?IH2. Qed.

Lemma uint_plain d :
  sep_free (NilEmpty.string_of_uint d) = true
  ∧ nul_free (NilEmpty.string_of_uint d) = true.
Proof.
  induction d; simpl; [done | ..];
    match goal with IH : _ ∧ _ |- _ => destruct IH as [IH1 IH2] end;
    by rewrite ?IH1, ?IH2.
Qed.

Lemma format_03d_plain z :
  sep_free (format_03d z) = true ∧ nul_free (format_03d z) = true.
Proof.
  unfold format_03d, zfill, decimal.
  destruct (z <? 0); rewrite ?sep_free_app, ?nul_free_app;
    repeat match goal with
           | |- context [zeros ?k] =>
               rewrite (proj1 (zeros_plain k)), (proj2 (zeros_plain k))
           | |- context [NilEmpty.string_of_uint ?d] =>
               rewrite (proj1 (uint_plain d)), (proj2 (uint_plain d))
           end; done.
Qed.

Section PlainNames.
Context `{Collaborators}.

Lemma segment_filename_plain t audio_format :
  plain (speaker t) = true → plain audio_format = true →
  sep_free (segment_filename t audio_format) = true
  ∧ nul_free (segment_filename t audio_format) = true.
Proof.
  intros [Hs1 Hs2]%plain_parts [Hf1 Hf2]%plain_parts. unfold segment_filename.
  rewrite !sep_free_app, !nul_free_app, lower_sep_free, lower_nul_free.
  rewrite Hs1, Hs2, Hf1, Hf2.
  by rewrite (proj1 (format_03d_plain (number t))),
    (proj2 (format_03d_plain (number t))).
Qed.

Lemma nul_free_segments_dir conv_id :
  is_uuid_text conv_id = true →
  nul_free (path_join (path_join STORAGE_DIR conv_id) "segments") = true.
Proof.
  intros Hc. unfold path_join.
  by rewrite !nul_free_app, (uuid_nul_free _ Hc).
Qed.

(** Into a segments directory that is there, segments under plain names
    are all written. *)
Lemma save_segments_plain conv_id audio_format ts (fs : disk) :
  let segments_dir := path_join (path_join STORAGE_DIR conv_id) "segments" in
  disk_ok fs → is_uuid_text conv_id = true → fs !! segments_dir = Some Dir →
  plain audio_format = true → Forall (λ t, plain (speaker t) = true) ts →
  ∃ fs', save_segments conv_id segments_dir audio_format ts fs
         = (Returned (with_paths conv_id audio_format ts), fs').
Proof.
  intros sd Hok Hc Hsd Hfmt Hts. revert fs Hok Hsd.
  induction Hts as [|t ts Ht _ IH]; intros fs Hok Hsd; [by eexists | ].
  simpl. munfold.
  destruct (segment_filename_plain t audio_format Ht Hfmt) as [Hsep Hnul].
  destruct (write_file_ok sd (segment_filename t audio_format)
              (b64decode (audio_b64 t)) fs Hok) as [-> Hok1]; try done.
  { by apply segment_key. }
  { rewrite nul_free_join, Hnul. unfold sd.
    by rewrite (nul_free_segments_dir conv_id Hc). }
  destruct (IH _ Hok1) as [fs' ->]; [ | by eexists].
  rewrite lookup_insert_ne; [done | ].
  intros Heq. apply (f_equal String.length) in Heq.
  rewrite path_join_length in Heq. lia.
Qed.


End PlainNames.

